(** * USB camera service: driver, frame grabber and HTTP surface

    A shallow embedding of [src/drivers/usb_camera.py] (the OpenCV-backed
    [USBCameraDriver]) and of [scripts/run_usb_camera_api.py] (the
    [FrameGrabber] with its background loop, and the FastAPI handlers).

    Conventions of the embedding:
    - Python [float] times are idealised as rationals ([Q]): rounding is
      outside the model.  The range of [float] is not: converting an [int]
      beyond it raises [OverflowError].
    - [bytes] are [list byte]; [Dict[str, _]] is a [gmap string _].
    - OpenCV and the clock are the environment: every device index owns two
      tapes holding the answers to its future [isOpened()] and [read()]
      calls, so that any finite behaviour of the hardware is some world.
    - A Python exception leaves the mutations made before it in place:
      effectful code is a state transformer returning [Ok v] or [Raise e]
      together with the state reached.
    - Objects are reference counted: a [cv2.VideoCapture] that nothing
      references any more is released by its destructor, at the point where
      the last reference goes away. *)

From Stdlib Require Import ZArith NArith QArith Qminmax Lia Lqa.
From Stdlib Require Import Strings.String Strings.Ascii Strings.Byte DecimalString DecimalN.
From stdpp Require Import base option list gmap strings.

Open Scope Z_scope.

(* ===================================================================== *)
(** ** Exceptions and the state-and-exception monad *)
(* ===================================================================== *)

(** The messages of the [RuntimeError]s raised by the driver. *)
Inductive Msg :=
  | NoCameraFound                (* open(): probe found no index in 0..9 *)
  | CannotOpenCamera (idx : Z)   (* open(): isOpened() is false *)
  | OpenedButNoFrame             (* open(): verification read failed *)
  | CallOpenFirst.               (* read(): _cap is None *)

Inductive Exn :=
  | RuntimeError (m : Msg)
  | AssertionError
  | AttributeError
  | ZeroDivisionError
  | OverflowError.

(** The error taxonomy the specification uses for the capture port. *)
Inductive ErrorKind := DeviceUnavailable | DeviceNotReady | NotOpen.

Definition error_kind (e : Exn) : option ErrorKind :=
  match e with
  | RuntimeError NoCameraFound => Some DeviceUnavailable
  | RuntimeError (CannotOpenCamera _) => Some DeviceUnavailable
  | RuntimeError OpenedButNoFrame => Some DeviceNotReady
  | RuntimeError CallOpenFirst => Some NotOpen
  | _ => None
  end.

Inductive Res (A : Type) :=
  | Ok (a : A)
  | Raise (e : Exn).
Arguments Ok {A} a.
Arguments Raise {A} e.

Definition Eff (S A : Type) : Type := S → Res A * S.

Definition eff_ret {S A} (a : A) : Eff S A := λ s, (Ok a, s).

Definition eff_bind {S A B} (c : Eff S A) (k : A → Eff S B) : Eff S B :=
  λ s, match c s with
       | (Ok a, s') => k a s'
       | (Raise e, s') => (Raise e, s')
       end.

Notation "x <- c ;; k" := (eff_bind c (fun x => k))
  (at level 20, c at level 99, k at level 200, only parsing).
Notation "c ;; k" := (eff_bind c (fun _ => k))
  (at level 100, k at level 200, right associativity, only parsing).

Definition raise {S A} (e : Exn) : Eff S A := λ s, (Raise e, s).
Definition lift_res {S A} (r : Res A) : Eff S A := λ s, (r, s).
Definition get {S} : Eff S S := λ s, (Ok s, s).
Definition modify {S} (f : S → S) : Eff S unit := λ s, (Ok tt, f s).

(** [try: body finally: fin] -- [fin] runs on both exits; the exception of
    [body] is re-raised after it. *)
Definition try_finally {S A} (body : Eff S A) (fin : Eff S unit) : Eff S A :=
  λ s, match body s with
       | (Ok a, s') => match fin s' with
                       | (Ok _, s'') => (Ok a, s'')
                       | (Raise e, s'') => (Raise e, s'')
                       end
       | (Raise e, s') => match fin s' with
                          | (Ok _, s'') => (Raise e, s'')
                          | (Raise e', s'') => (Raise e', s'')
                          end
       end.

(** [try: body except Exception as e: handler e]. *)
Definition try_except {S A} (body : Eff S A) (handler : Exn → Eff S A) : Eff S A :=
  λ s, match body s with
       | (Ok a, s') => (Ok a, s')
       | (Raise e, s') => handler e s'
       end.

(** [float(n)] for an [int] [n], also where [n] meets a float operand: an
    [int] that does not round into the range of a double raises
    [OverflowError] ("int too large to convert to float").  The first such
    magnitude is [2^1024 - 2^970], half-way between the largest double and
    [2^1024].  Within the range the value is kept exact. *)
Definition FLOAT_LIMIT : Z := 2 ^ 1024 - 2 ^ 970.

Definition fits (n : Z) : bool := Z.abs n <? FLOAT_LIMIT.

Definition float (n : Z) : Res Z :=
  if fits n then Ok n else Raise OverflowError.

(** Run a computation on a component of a larger state. *)
Definition zoom {S T A} (proj : S → T) (inj : T → S → S) (c : Eff T A) : Eff S A :=
  λ s, let '(r, t') := c (proj s) in (r, inj t' s).

(* ===================================================================== *)
(** ** The environment: OpenCV devices and the clock *)
(* ===================================================================== *)

Abbreviation bytes := (list byte).

(** A raw image as [cap.read()] delivers it: its shape and what
    [cv2.imencode(".jpg", frame, [IMWRITE_JPEG_QUALITY, q])] makes of it
    ([None] when the encoder reports failure). *)
Record Frame := {
  rows : N;
  cols : N;
  imencode : Z → option bytes;
}.

(** A device index: the answers to the coming [VideoCapture(i, _).isOpened()]
    and [cap.read()] calls.  An exhausted tape answers "no". *)
Record Device := {
  attach : list bool;
  shots : list (bool * option Frame);
}.

Definition no_device : Device := {| attach := []; shots := [] |}.

Inductive Event :=
  | EOpen (i backend : Z) (ok : bool)
  | ESet (i prop value : Z)
  | EGrab (i : Z) (t : Q) (ok : bool)
  | ERelease (i : Z)
  | EDealloc (i : Z)
  | ESleep (d : Q).

Record World := {
  clock : Q;                    (* time.perf_counter() *)
  wallclock : string;           (* Measurement.now_iso() *)
  devices : gmap Z Device;
  held : list Z;                (* indices with an open capture: opened and
                                   neither released nor deallocated *)
  oversleep : list Q;           (* how much the coming sleeps overshoot *)
  log : list Event;             (* oldest first *)
}.

Definition device (w : World) (i : Z) : Device := default no_device (devices w !! i).

Definition set_clock (t : Q) (w : World) : World :=
  {| clock := t; wallclock := wallclock w; devices := devices w; held := held w;
     oversleep := oversleep w; log := log w |}.
Definition set_device (i : Z) (d : Device) (w : World) : World :=
  {| clock := clock w; wallclock := wallclock w; devices := <[i := d]> (devices w);
     held := held w; oversleep := oversleep w; log := log w |}.
Definition set_held (h : list Z) (w : World) : World :=
  {| clock := clock w; wallclock := wallclock w; devices := devices w; held := h;
     oversleep := oversleep w; log := log w |}.
Definition set_oversleep (o : list Q) (w : World) : World :=
  {| clock := clock w; wallclock := wallclock w; devices := devices w; held := held w;
     oversleep := o; log := log w |}.
Definition emit (e : Event) (w : World) : World :=
  {| clock := clock w; wallclock := wallclock w; devices := devices w; held := held w;
     oversleep := oversleep w; log := log w ++ [e] |}.

(** Remove one occurrence: releasing one of the captures open on an index. *)
Fixpoint remove_one (i : Z) (l : list Z) : list Z :=
  match l with
  | [] => []
  | j :: l' => if Z.eqb i j then l' else j :: remove_one i l'
  end.

Definition CAP_DSHOW : Z := 700.
Definition CAP_PROP_FRAME_WIDTH : Z := 3.
Definition CAP_PROP_FRAME_HEIGHT : Z := 4.
Definition CAP_PROP_FPS : Z := 5.

(** [cap = cv2.VideoCapture(i, backend)] followed by [cap.isOpened()]. *)
Definition VideoCapture (i backend : Z) : Eff World bool :=
  λ w, let d := device w i in
       let ok := default false (head (attach d)) in
       let w1 := set_device i {| attach := tail (attach d); shots := shots d |} w in
       let w2 := if ok then set_held (i :: held w1) w1 else w1 in
       (Ok ok, emit (EOpen i backend ok) w2).

(** [cap.read()] on a capture bound to index [i]. *)
Definition cap_read (i : Z) : Eff World (bool * option Frame) :=
  λ w, let d := device w i in
       let r := default (false, None) (head (shots d)) in
       let w1 := set_device i {| attach := attach d; shots := tail (shots d) |} w in
       (Ok r, emit (EGrab i (clock w) (fst r)) w1).

Definition cap_release (i : Z) : Eff World unit :=
  λ w, (Ok tt, emit (ERelease i) (set_held (remove_one i (held w)) w)).

(** The last reference to a capture that is still open goes away: the
    destructor of [cv2.VideoCapture] releases the device. *)
Definition cap_del (i : Z) : Eff World unit :=
  λ w, (Ok tt, emit (EDealloc i) (set_held (remove_one i (held w)) w)).

Definition cap_set (i prop value : Z) : Eff World unit :=
  λ w, (Ok tt, emit (ESet i prop value) w).

Definition perf_counter : Eff World Q := λ w, (Ok (clock w), w).

(** [time.sleep(d)]: at least [d] passes. *)
Definition sleep (d : Q) : Eff World unit :=
  λ w, let extra := default 0%Q (head (oversleep w)) in
       (Ok tt, emit (ESleep d)
                 (set_oversleep (tail (oversleep w))
                    (set_clock (clock w + d + extra)%Q w))).

Definition now_iso : Eff World string := λ w, (Ok (wallclock w), w).

(** Time passing in the caller between two calls. *)
Definition wait (d : Q) (w : World) : World := set_clock (clock w + d)%Q w.

(* ===================================================================== *)
(** ** [src/models/measurement.py] *)
(* ===================================================================== *)

Record Measurement := {
  timestamp : string;
  data : bytes;
  meta : gmap string string;
  semantic_id : option string;
}.

(** [str(n)] for a non-negative [int]. *)
Definition str (n : N) : string := NilZero.string_of_uint (N.to_uint n).

(* ===================================================================== *)
(** ** [src/drivers/usb_camera.py] *)
(* ===================================================================== *)

Module usb_camera.

Fixpoint probe_from (i : Z) (n : nat) : Eff World (option Z) :=
  match n with
  | O => eff_ret None
  | S n' =>
      opened <- VideoCapture i CAP_DSHOW ;;
      if (opened : bool) then
        (r <- cap_read i ;;
         cap_release i ;;
         if fst r then eff_ret (Some i) else probe_from (i + 1) n')
      else probe_from (i + 1) n'
  end.

(** [for i in range(max_index)]. *)
Definition _probe_device_index (max_index : Z) : Eff World (option Z) :=
  probe_from 0 (Z.to_nat max_index).

Record USBCameraDriver := {
  device_index : option Z;
  width : Z;
  height : Z;
  fps : Z;
  jpeg_quality : Z;
  backend : Z;
  _cap : option Z;              (* the capture, by the index it is bound to *)
  _last_frame_ts : Q;
  _frame_interval : Q;
}.

(** [a / b] with a float numerator and an [int] denominator: the
    denominator is converted to a float first. *)
Definition truediv (a : Q) (b : Z) : Res Q :=
  match float b with
  | Ok b' => if Z.eqb b' 0 then Raise ZeroDivisionError else Ok (a / inject_Z b')%Q
  | Raise e => Raise e
  end.

Definition __init__ (device_index : option Z) (width height fps jpeg_quality backend : Z)
  : Res USBCameraDriver :=
  match truediv 1%Q (Z.max 1 fps) with
  | Ok iv =>
      Ok {| device_index := device_index; width := width; height := height; fps := fps;
            jpeg_quality := jpeg_quality; backend := backend;
            _cap := None; _last_frame_ts := 0%Q; _frame_interval := iv |}
  | Raise e => Raise e
  end.

Definition St : Type := USBCameraDriver * World.

Definition world {A} (c : Eff World A) : Eff St A :=
  zoom snd (λ w s, (fst s, w)) c.
Definition self : Eff St USBCameraDriver := λ s, (Ok (fst s), s).
Definition update (f : USBCameraDriver → USBCameraDriver) : Eff St unit :=
  modify (λ s, (f (fst s), snd s)).

Definition set_device_index (i : option Z) (d : USBCameraDriver) : USBCameraDriver :=
  {| device_index := i; width := width d; height := height d; fps := fps d;
     jpeg_quality := jpeg_quality d; backend := backend d; _cap := _cap d;
     _last_frame_ts := _last_frame_ts d; _frame_interval := _frame_interval d |}.
Definition set_cap (c : option Z) (d : USBCameraDriver) : USBCameraDriver :=
  {| device_index := device_index d; width := width d; height := height d; fps := fps d;
     jpeg_quality := jpeg_quality d; backend := backend d; _cap := c;
     _last_frame_ts := _last_frame_ts d; _frame_interval := _frame_interval d |}.
Definition set_last_frame_ts (t : Q) (d : USBCameraDriver) : USBCameraDriver :=
  {| device_index := device_index d; width := width d; height := height d; fps := fps d;
     jpeg_quality := jpeg_quality d; backend := backend d; _cap := _cap d;
     _last_frame_ts := t; _frame_interval := _frame_interval d |}.

(** A stretch of [open()] during which the new capture is open and bound
    to the local [cap] alone.  An exception that leaves it takes the frame
    of the call with it, the local included, and the capture is
    deallocated; nothing uses the device before that has happened. *)
Definition local_cap {A} (idx : Z) (body : Eff St A) : Eff St A :=
  λ s, match body s with
       | (Ok a, s') => (Ok a, s')
       | (Raise e, s') => (Raise e, (fst s', snd (cap_del idx (snd s'))))
       end.

(** A driver object that nothing references any more: the capture it
    still holds, if any, goes with it. *)
Definition dispose (d : USBCameraDriver) : Eff World unit :=
  match _cap d with
  | Some c => cap_del c
  | None => eff_ret tt
  end.

Definition open : Eff St unit :=
  d <- self ;;
  idx <- match device_index d with
        | None =>
            found <- world (_probe_device_index 10) ;;
            match found with
            | None => raise (RuntimeError NoCameraFound)
            | Some idx => (update (set_device_index (Some idx)) ;; eff_ret idx)
            end
        | Some idx => eff_ret idx
        end ;;
  opened <- world (VideoCapture idx (backend d)) ;;
  if (opened : bool) then
    (local_cap idx
       (wd <- lift_res (float (width d)) ;;
        world (cap_set idx CAP_PROP_FRAME_WIDTH wd) ;;
        h <- lift_res (float (height d)) ;;
        world (cap_set idx CAP_PROP_FRAME_HEIGHT h) ;;
        f <- lift_res (float (fps d)) ;;
        world (cap_set idx CAP_PROP_FPS f)) ;;
     r <- world (cap_read idx) ;;
     if fst r then
       (update (set_cap (Some idx)) ;;
        match _cap d with          (* the capture [_cap] was bound to before *)
        | Some old => world (cap_del old)
        | None => eff_ret tt
        end ;;
        update (set_last_frame_ts 0%Q))
     else
       (world (cap_release idx) ;;
        raise (RuntimeError OpenedButNoFrame)))
  else raise (RuntimeError (CannotOpenCamera idx)).

Definition _grab_encoded : Eff St (option (bytes * gmap string string)) :=
  d <- self ;;
  match _cap d with
  | None => raise AssertionError
  | Some c =>
      r <- world (cap_read c) ;;
      match r with
      | (true, Some frame) =>
          match imencode frame (jpeg_quality d) with
          | Some buf =>
              eff_ret (Some (buf, ({[ "width" := str (cols frame);
                                   "height" := str (rows frame);
                                   "format" := "jpeg" ]} : gmap string string)))
          | None => eff_ret None
          end
      | _ => eff_ret None
      end
  end.

Definition read : Eff St (option Measurement) :=
  d <- self ;;
  match _cap d with
  | None => raise (RuntimeError CallOpenFirst)
  | Some _ =>
      now <- world perf_counter ;;
      let dt := (now - _last_frame_ts d)%Q in
      (if Qlt_le_dec dt (_frame_interval d)
       then world (sleep (_frame_interval d - dt)%Q)
       else eff_ret tt) ;;
      t <- world perf_counter ;;
      update (set_last_frame_ts t) ;;
      out <- _grab_encoded ;;
      match out with
      | None => eff_ret None
      | Some (data, meta) =>
          ts <- world now_iso ;;
          eff_ret (Some {| timestamp := ts; data := data; meta := meta; semantic_id := None |})
      end
  end.

Definition close : Eff St unit :=
  d <- self ;;
  match _cap d with
  | Some c =>
      try_finally (world (cap_release c)) (update (set_cap None))
  | None => eff_ret tt
  end.

End usb_camera.

(* ===================================================================== *)
(** ** [scripts/run_usb_camera_api.py]: the frame grabber *)
(* ===================================================================== *)

Module api.

(** The module-level settings read from the process environment. *)
Record Config := {
  CAMERA_INDEX : Z;
  DEFAULT_ENABLED : bool;
  WIDTH : Z;
  HEIGHT : Z;
  FPS : Z;
  JPEG_QUALITY : Z;
}.

(** Where a thread running [FrameGrabber._loop] stands. *)
Inductive Pc :=
  | AtEntry                      (* started; [assert] and [running = True] to come *)
  | AtWhile                      (* about to test [stop_evt.is_set()] *)
  | AtRead                       (* about to call [self.driver.read()] *)
  | AtSleep                      (* [m is None]: about to [time.sleep(0.05)] *)
  | AtPublish (m : Measurement)  (* about to store [m] under the lock *)
  | Exited.

Definition is_alive (pc : Pc) : bool :=
  match pc with Exited => false | _ => true end.

(** The attributes of a [FrameGrabber].  [thread] names a thread of the pool
    of the system state; [lock] is held only inside steps that are atomic
    here and has no field. *)
Record FrameGrabber := {
  enabled : bool;
  device_index : Z;
  driver : option usb_camera.USBCameraDriver;
  thread : option nat;
  stop_evt : bool;
  latest_frame : option bytes;
  latest_meta : gmap string string;
  running : bool;
}.

(** The process: the grabber object, every [_loop] thread ever started
    (a thread the grabber no longer references keeps running), the world. *)
Record Sys := {
  grabber : FrameGrabber;
  threads : list Pc;
  env : World;
}.

Definition set_enabled_field (b : bool) (g : FrameGrabber) : FrameGrabber :=
  {| enabled := b; device_index := device_index g; driver := driver g; thread := thread g;
     stop_evt := stop_evt g; latest_frame := latest_frame g; latest_meta := latest_meta g;
     running := running g |}.
Definition set_driver (d : option usb_camera.USBCameraDriver) (g : FrameGrabber) : FrameGrabber :=
  {| enabled := enabled g; device_index := device_index g; driver := d; thread := thread g;
     stop_evt := stop_evt g; latest_frame := latest_frame g; latest_meta := latest_meta g;
     running := running g |}.
Definition set_thread (t : option nat) (g : FrameGrabber) : FrameGrabber :=
  {| enabled := enabled g; device_index := device_index g; driver := driver g; thread := t;
     stop_evt := stop_evt g; latest_frame := latest_frame g; latest_meta := latest_meta g;
     running := running g |}.
Definition set_stop_evt (b : bool) (g : FrameGrabber) : FrameGrabber :=
  {| enabled := enabled g; device_index := device_index g; driver := driver g; thread := thread g;
     stop_evt := b; latest_frame := latest_frame g; latest_meta := latest_meta g;
     running := running g |}.
Definition set_latest (f : option bytes) (m : gmap string string) (g : FrameGrabber)
  : FrameGrabber :=
  {| enabled := enabled g; device_index := device_index g; driver := driver g; thread := thread g;
     stop_evt := stop_evt g; latest_frame := f; latest_meta := m; running := running g |}.
Definition set_running (b : bool) (g : FrameGrabber) : FrameGrabber :=
  {| enabled := enabled g; device_index := device_index g; driver := driver g; thread := thread g;
     stop_evt := stop_evt g; latest_frame := latest_frame g; latest_meta := latest_meta g;
     running := b |}.

Definition on_grabber (f : FrameGrabber → FrameGrabber) (s : Sys) : Sys :=
  {| grabber := f (grabber s); threads := threads s; env := env s |}.
Definition set_threads (l : list Pc) (s : Sys) : Sys :=
  {| grabber := grabber s; threads := l; env := env s |}.
Definition set_env (w : World) (s : Sys) : Sys :=
  {| grabber := grabber s; threads := threads s; env := w |}.
Definition set_pc (t : nat) (pc : Pc) (s : Sys) : Sys :=
  set_threads (<[t := pc]> (threads s)) s.

Definition assign (f : FrameGrabber → FrameGrabber) : Eff Sys unit := modify (on_grabber f).
Definition in_world {A} (c : Eff World A) : Eff Sys A := zoom env set_env c.

(** [self.driver.<method>()]: the call runs on the driver object the
    attribute holds now; on [None] the attribute lookup fails. *)
Definition on_driver {A} (c : Eff usb_camera.St A) : Eff Sys A :=
  λ s, match driver (grabber s) with
       | None => (Raise AttributeError, s)
       | Some d =>
           let '(r, (d', w')) := c (d, env s) in
           (r, set_env w' (on_grabber (set_driver (Some d')) s))
       end.

Section grabber.
Variable cfg : Config.

(** [grabber = FrameGrabber()]. *)
Definition FrameGrabber__init__ : FrameGrabber :=
  {| enabled := DEFAULT_ENABLED cfg; device_index := CAMERA_INDEX cfg; driver := None;
     thread := None; stop_evt := false; latest_frame := None; latest_meta := ∅;
     running := false |}.

(** One step of the thread [t] running [_loop]. *)
Definition loop_step (t : nat) (s : Sys) : Sys :=
  match threads s !! t with
  | Some AtEntry =>
      match driver (grabber s) with
      | None => set_pc t Exited s                  (* the [assert] fails *)
      | Some _ => set_pc t AtWhile (on_grabber (set_running true) s)
      end
  | Some AtWhile =>
      if stop_evt (grabber s)
      then set_pc t Exited (on_grabber (set_running false) s)
      else set_pc t AtRead s
  | Some AtRead =>
      match on_driver usb_camera.read s with
      | (Ok None, s') => set_pc t AtSleep s'
      | (Ok (Some m), s') => set_pc t (AtPublish m) s'
      | (Raise _, s') => set_pc t Exited (on_grabber (set_running false) s')
      end
  | Some AtSleep =>
      set_pc t AtWhile (snd (in_world (sleep (5 # 100)) s))
  | Some (AtPublish m) =>
      set_pc t AtWhile (on_grabber (set_latest (Some (data m)) (meta m)) s)
  | Some Exited | None => s
  end.

Definition _open_driver : Eff Sys unit :=
  g <- get ;;
  d <- lift_res (usb_camera.__init__ (Some (device_index (grabber g)))
                   (WIDTH cfg) (HEIGHT cfg) (FPS cfg) (JPEG_QUALITY cfg) CAP_DSHOW) ;;
  assign (set_driver (Some d)) ;;
  match driver (grabber g) with  (* the driver [self.driver] was bound to before *)
  | Some old => in_world (usb_camera.dispose old)
  | None => eff_ret tt
  end ;;
  on_driver usb_camera.open.

Definition _close_driver : Eff Sys unit :=
  try_finally
    (s <- get ;;
     match driver (grabber s) with
     | Some _ => on_driver usb_camera.close
     | None => eff_ret tt
     end)
    (assign (set_driver None)).

Definition thread_alive (s : Sys) : bool :=
  match thread (grabber s) with
  | Some t => match threads s !! t with Some pc => is_alive pc | None => false end
  | None => false
  end.

(** [threading.Thread(target=self._loop, daemon=True)] and [.start()]. *)
Definition spawn : Eff Sys unit :=
  λ s, (Ok tt, set_threads (threads s ++ [AtEntry])
                 (on_grabber (set_thread (Some (length (threads s)))) s)).

Definition start : Eff Sys unit :=
  s <- get ;;
  if thread_alive s then eff_ret tt
  else (assign (set_stop_evt false) ;;
        _open_driver ;;
        spawn).

(** [thread.join(timeout=2.0)].  While the caller waits the joined thread
    runs; [budget] is how many of its steps fit before the timeout.  The
    call returns when the thread has exited or the budget is used up,
    and in the second case two seconds have passed with the thread still
    alive. *)
Fixpoint join_steps (t : nat) (budget : nat) (s : Sys) : Sys :=
  match threads s !! t with
  | Some pc =>
      if is_alive pc then
        match budget with
        | O => set_env (wait 2 (env s)) s
        | S b => join_steps t b (loop_step t s)
        end
      else s
  | None => s
  end.

Definition join (t : nat) (budget : nat) : Eff Sys unit :=
  modify (join_steps t budget).

Definition stop (budget : nat) : Eff Sys unit :=
  assign (set_stop_evt true) ;;
  s <- get ;;
  match thread (grabber s) with
  | Some t => join t budget
  | None => eff_ret tt
  end ;;
  assign (set_thread None) ;;
  _close_driver ;;
  assign (set_latest None ∅).

Definition set_enabled (flag : bool) (budget : nat) : Eff Sys unit :=
  s <- get ;;
  if Bool.eqb flag (enabled (grabber s)) then eff_ret tt
  else (assign (set_enabled_field flag) ;;
        if flag then start else stop budget).

Definition get_latest_jpeg (s : Sys) : option bytes := latest_frame (grabber s).
Definition get_meta (s : Sys) : gmap string string := latest_meta (grabber s).

(** Import of the module: the grabber is made and, when enabled, started;
    a failure to start is printed and otherwise ignored. *)
Definition boot (w : World) : Sys :=
  let s := {| grabber := FrameGrabber__init__; threads := []; env := w |} in
  if enabled (grabber s)
  then snd (try_except start (λ _, eff_ret tt) s)
  else s.

End grabber.

(* ===================================================================== *)
(** ** [scripts/run_usb_camera_api.py]: the FastAPI handlers *)
(* ===================================================================== *)

Inductive Detail :=
  | Text (s : string)
  | OfExn (e : Exn).             (* [str(e)] *)

Inductive Reply :=
  | HTTPException (status_code : Z) (detail : Detail)
  | EnabledJSON (enabled : bool)                        (* {"enabled": b} *)
  | HealthJSON (ok enabled running : bool)              (* {"ok", "enabled", "running"} *)
  | OkJSON                                              (* {"ok": True} *)
  | Response (content : bytes) (media_type : string)
  | StreamingResponse (headers : list (string * string)).

(** Truth value of an [Optional[bytes]]: [None] and [b""] are false. *)
Definition truthy (b : option bytes) : bool :=
  match b with
  | Some (_ :: _) => true
  | _ => false
  end.

Definition CRLF : string := String "013" (String "010" EmptyString).

(** [s.encode("utf-8")] for the ASCII text built here. *)
Definition encode (s : string) : bytes := list_byte_of_string s.

(** [len(b)]. *)
Definition len (b : bytes) : N := N.of_nat (length b).

(** What one pass through the body of [while True] in [gen()] does. *)
Inductive GenStep :=
  | Yield (chunk : bytes)
  | Retry                        (* slept 0.05 s, loops *)
  | Break.

Section handlers.
Variable cfg : Config.


Definition camera_enable (payload : gmap string bool) (budget : nat) (s : Sys)
  : Reply * Sys :=
  match payload !! "enabled" with
  | None => (HTTPException 400 (Text "Missing 'enabled' boolean"), s)
  | Some flag =>
      match set_enabled cfg flag budget s with
      | (Ok _, s') => (EnabledJSON (enabled (grabber s')), s')
      | (Raise e, s') => (HTTPException 500 (OfExn e), s')
      end
  end.

Definition camera_frame (s : Sys) : Reply :=
  if negb (enabled (grabber s))
  then HTTPException 409 (Text "Camera disabled")
  else
    let data := get_latest_jpeg s in
    if negb (truthy data)
    then HTTPException 404 (Text "No frame available yet")
    else Response (default [] data) "image/jpeg".

Definition boundary : string := "frame".

Definition stream_headers : list (string * string) :=
  [("Age", "0"); ("Cache-Control", "no-cache, private"); ("Pragma", "no-cache");
   ("Content-Type", "multipart/x-mixed-replace; boundary=--" ++ boundary)]%string.

Definition gen_iter (s : Sys) : GenStep * Sys :=
  if negb (enabled (grabber s)) then (Break, s)
  else
    let frame := get_latest_jpeg s in
    if truthy frame then
      let body := default [] frame in
      (Yield (encode ("--" ++ boundary ++ CRLF
                      ++ "Content-Type: image/jpeg" ++ CRLF
                      ++ "Content-Length: " ++ str (len body) ++ CRLF ++ CRLF)%string
              ++ body ++ encode CRLF), s)
    else (Retry, snd (in_world (sleep (5 # 100)) s)).

Definition camera_stream (s : Sys) : Reply :=
  if negb (enabled (grabber s))
  then HTTPException 409 (Text "Camera disabled")
  else StreamingResponse stream_headers.

Definition camera_reopen (budget : nat) (s : Sys) : Reply * Sys :=
  if negb (enabled (grabber s))
  then (HTTPException 409 (Text "Camera disabled"), s)
  else
    match (stop budget ;; in_world (sleep (2 # 10)) ;; start cfg) s with
    | (Ok _, s') => (OkJSON, s')
    | (Raise e, s') => (HTTPException 500 (OfExn e), s')
    end.

(** *** Executions

    What can happen to the process after import: a loop thread takes a
    step, a method of the grabber is called, or a state-changing request
    is served.  Calls are served one at a time. *)
Inductive Action :=
  | Tick (t : nat)
  | CallStart
  | CallStop (budget : nat)
  | CallSetEnabled (flag : bool) (budget : nat)
  | PutEnable (payload : gmap string bool) (budget : nat)
  | PostReopen (budget : nat).

Definition perform (a : Action) (s : Sys) : Sys :=
  match a with
  | Tick t => loop_step t s
  | CallStart => snd (start cfg s)
  | CallStop b => snd (stop b s)
  | CallSetEnabled f b => snd (set_enabled cfg f b s)
  | PutEnable p b => snd (camera_enable p b s)
  | PostReopen b => snd (camera_reopen b s)
  end.

Definition run (acts : list Action) (s : Sys) : Sys := foldl (λ s a, perform a s) s acts.

(** The actions the service itself performs: [start] and [stop] are
    reached only through the handlers. *)
Definition served (a : Action) : bool :=
  match a with
  | Tick _ | PutEnable _ _ | PostReopen _ => true
  | _ => false
  end.

(** No loop is alive but the one the grabber references.  A [stop] whose
    [join] returned on its timeout leaves a state that fails this. *)
Definition no_orphan (s : Sys) : bool :=
  forallb (λ '(t, pc), negb (is_alive pc) || bool_decide (thread (grabber s) = Some t))
          (imap pair (threads s)).

(** Every state of the run, the last included, is free of orphans: each
    [join] of the run saw its thread exit. *)
Fixpoint joins_in_time (acts : list Action) (s : Sys) : bool :=
  no_orphan s &&
  match acts with
  | [] => true
  | a :: acts' => joins_in_time acts' (perform a s)
  end.



End handlers.

End api.

(* ===================================================================== *)
(** ** Vocabulary of the statements *)
(* ===================================================================== *)

Module driver_life.
Import usb_camera.

(** The calls of the capture port and the life cycle they drive.  The code
    keeps one attribute, [_cap]; the life cycle is read off the history:
    opened by an [open()] that returned, closed by [close()]. *)
Inductive Call := CallOpen | CallRead | CallClose.

Inductive Lifecycle := Unopened | Opened | Closed.

Definition raised {A} (r : Res A) : bool :=
  match r with Ok _ => false | Raise _ => true end.

Definition invoke (c : Call) (st : St) : bool * St :=
  match c with
  | CallOpen => let '(r, st') := open st in (raised r, st')
  | CallRead => let '(r, st') := read st in (raised r, st')
  | CallClose => let '(r, st') := close st in (raised r, st')
  end.

Definition transition (l : Lifecycle) (c : Call) (failed : bool) : Lifecycle :=
  match c with
  | CallOpen => if failed then l else Opened
  | CallRead => l
  | CallClose => match l with Opened => Closed | _ => l end
  end.

Fixpoint history (calls : list Call) (l : Lifecycle) (st : St) : Lifecycle * St :=
  match calls with
  | [] => (l, st)
  | c :: calls' =>
      let '(failed, st') := invoke c st in
      history calls' (transition l c failed) st'
  end.

(** What a run appended to the log of the world. *)
Definition added (w w' : World) : list Event := drop (length (log w)) (log w').

(** The indices on which a capture was attempted, in order. *)
Definition attempts (evs : list Event) : list Z :=
  omap (λ e, match e with EOpen i _ _ => Some i | _ => None end) evs.

(** The times of the underlying [cap.read()] calls, in order. *)
Definition grab_times (evs : list Event) : list Q :=
  omap (λ e, match e with EGrab _ t _ => Some t | _ => None end) evs.

(** An index qualifies when its next capture opens and its next read
    succeeds. *)
Definition qualifies (w : World) (i : Z) : bool :=
  default false (head (attach (device w i)))
  && fst (default (false, None) (head (shots (device w i)))).

Definition nonneg (x : Q) : Prop := (0 <= x)%Q.

(** Neighbours of the list are at least [iv] apart. *)
Fixpoint spaced (iv : Q) (ts : list Q) : Prop :=
  match ts with
  | a :: (b :: _) as rest => (a + iv <= b)%Q ∧ spaced iv rest
  | _ => True
  end.

(** A caller reading again and again, letting [delay] pass before each
    call. *)
Fixpoint reads (delays : list Q) (st : St) : St :=
  match delays with
  | [] => st
  | delay :: delays' => reads delays' (snd (read (fst st, wait delay (snd st))))
  end.

End driver_life.

Module service.
Import api.

(** The text of one part of a [multipart/x-mixed-replace] body as the
    specification gives it:
    [--<boundary>\r\nContent-Type: <type>\r\nContent-Length: <n>\r\n\r\n<bytes>\r\n]. *)
Definition multipart_chunk (boundary type : string) (payload : bytes) : bytes :=
  encode ("--" ++ boundary ++ CRLF)%string
  ++ encode ("Content-Type: " ++ type ++ CRLF)%string
  ++ encode ("Content-Length: " ++ str (len payload) ++ CRLF)%string
  ++ encode CRLF
  ++ payload
  ++ encode CRLF.

(** The number a decimal numeral denotes. *)
Definition int_of_str (s : string) : option N :=
  N.of_uint <$> NilZero.uint_of_string s.

(** The same part byte by byte.  Its first bytes, up to the length numeral,
    are the ASCII codes of
    [--frame\r\nContent-Type: image/jpeg\r\nContent-Length: ]. *)
Definition part_head : bytes :=
  [x2d; x2d; x66; x72; x61; x6d; x65; x0d; x0a; x43; x6f; x6e; x74; x65; x6e; x74;
   x2d; x54; x79; x70; x65; x3a; x20; x69; x6d; x61; x67; x65; x2f; x6a; x70; x65;
   x67; x0d; x0a; x43; x6f; x6e; x74; x65; x6e; x74; x2d; x4c; x65; x6e; x67; x74;
   x68; x3a; x20].

(** The digit an ASCII code stands for. *)
Definition digit (b : byte) : option N :=
  let n := Byte.to_N b in
  if ((48 <=? n) && (n <=? 57))%N then Some (n - 48)%N else None.

Fixpoint decimal_from (acc : N) (bs : bytes) : option N :=
  match bs with
  | [] => Some acc
  | b :: bs' =>
      match digit b with
      | Some d => decimal_from (10 * acc + d) bs'
      | None => None
      end
  end.

(** The number a decimal numeral in ASCII denotes: one digit or more, and
    no leading zero in front of another digit. *)
Definition decimal (bs : bytes) : option N :=
  match bs with
  | [] => None
  | [_] => decimal_from 0 bs
  | b :: _ => if Byte.eqb b x30 then None else decimal_from 0 bs
  end.

(** [--frame\r\nContent-Type: image/jpeg\r\nContent-Length: <n>\r\n\r\n<bytes>\r\n]
    with the numeral [digits] for [<n>]. *)
Definition part_bytes (digits payload : bytes) : bytes :=
  part_head ++ digits ++ [x0d; x0a; x0d; x0a] ++ payload ++ [x0d; x0a].

(** The encoder does not answer success with an empty buffer: no JPEG is
    empty.  This is about the frames the devices of a world hold, encoded
    at quality [q]. *)
Definition jpeg_nonempty (q : Z) (shot : bool * option Frame) : bool :=
  match shot with
  | (true, Some frame) => match imencode frame q with Some [] => false | _ => true end
  | _ => true
  end.

Definition nonempty_jpegs (q : Z) (w : World) : bool :=
  forallb (λ '(_, dev), forallb (jpeg_nonempty q) (shots dev)) (map_to_list (devices w)).

(** The frames still to come encode to something, the driver encodes at
    the configured quality, and neither the published payload nor a
    payload about to be published is the empty byte string. *)
Definition payload_sound (q : Z) (s : Sys) : Prop :=
  (∀ i, forallb (jpeg_nonempty q) (shots (device (env s) i)) = true)
  ∧ (∀ d, driver (grabber s) = Some d → usb_camera.jpeg_quality d = q)
  ∧ latest_frame (grabber s) ≠ Some []
  ∧ ∀ t m, threads s !! t = Some (AtPublish m) → data m ≠ [].

(** The part of the state the control flow of the grabber depends on:
    everything but the driver object and the world. *)
Definition control (s : Sys)
  : bool * option nat * bool * option bytes * gmap string string * bool * list Pc :=
  (enabled (grabber s), thread (grabber s), stop_evt (grabber s),
   latest_frame (grabber s), latest_meta (grabber s), running (grabber s), threads s).

(** Every loop thread has exited. *)
Definition all_exited (s : Sys) : Prop :=
  ∀ t pc, threads s !! t = Some pc → is_alive pc = false.

(** The loop the grabber references is past its entry and alive whenever
    [running] is set. *)
Definition running_sound (s : Sys) : Prop :=
  running (grabber s) = true →
  ∃ t pc, thread (grabber s) = Some t ∧ threads s !! t = Some pc
          ∧ pc ≠ AtEntry ∧ is_alive pc = true.

(** A disabled grabber references no loop and publishes nothing. *)
Definition disabled_clean (s : Sys) : Prop :=
  enabled (grabber s) = false →
  thread (grabber s) = None ∧ latest_frame (grabber s) = None
  ∧ latest_meta (grabber s) = ∅.


Definition steady (s : Sys) : Prop := running_sound s ∧ disabled_clean s.

(** The state in which [stop] returns from its [join]. *)
Definition joined (b : nat) (s : Sys) : Sys :=
  match thread (grabber s) with
  | Some t => join_steps t b (on_grabber (set_stop_evt true) s)
  | None => on_grabber (set_stop_evt true) s
  end.

(** The world once the driver the grabber was bound to has been let go. *)
Definition disposed (s : Sys) : World :=
  match driver (grabber s) with
  | Some old => snd (usb_camera.dispose old (env s))
  | None => env s
  end.

(** *** Sample worlds and states *)

Definition blank : World :=
  {| clock := 0; wallclock := "2025-10-23T12:34:56.789Z"; devices := ∅; held := [];
     oversleep := []; log := [] |}.

Definition jpeg_stub : bytes := [xff; xd8; xff; xd9].

Definition picture : Frame :=
  {| rows := 480; cols := 640; imencode := λ _, Some jpeg_stub |}.

(** A camera on index 1 that opens once and delivers three frames. *)
Definition one_camera : World :=
  {| clock := 0; wallclock := "2025-10-23T12:34:56.789Z";
     devices := {[ 1 := {| attach := [true];
                           shots := [(true, Some picture); (true, Some picture);
                                     (true, Some picture)] |} ]};
     held := []; oversleep := []; log := [] |}.


(** Cameras on indices 2 and 3; the capture on index 0 opens but does not
    deliver. *)
Definition three_slots : World :=
  {| clock := 0; wallclock := "2025-10-23T12:34:56.789Z";
     devices := {[ 0 := {| attach := [true]; shots := [(false, None)] |};
                   2 := {| attach := [true; true];
                           shots := [(true, Some picture); (true, Some picture)] |};
                   3 := {| attach := [true]; shots := [(true, Some picture)] |} ]};
     held := []; oversleep := []; log := [] |}.

Definition off_by_default : Config :=
  {| CAMERA_INDEX := 1; DEFAULT_ENABLED := false; WIDTH := 640; HEIGHT := 480;
     FPS := 10; JPEG_QUALITY := 85 |}.

Definition on_by_default : Config :=
  {| CAMERA_INDEX := 1; DEFAULT_ENABLED := true; WIDTH := 640; HEIGHT := 480;
     FPS := 10; JPEG_QUALITY := 85 |}.

(** The driver [_open_driver] builds under these settings. *)
Definition configured_driver : usb_camera.USBCameraDriver :=
  {| usb_camera.device_index := Some 1; usb_camera.width := 640;
     usb_camera.height := 480; usb_camera.fps := 10; usb_camera.jpeg_quality := 85;
     usb_camera.backend := CAP_DSHOW; usb_camera._cap := None;
     usb_camera._last_frame_ts := 0; usb_camera._frame_interval := 1 / inject_Z (Z.max 1 10) |}.

(** The same driver left to find its device by probing. *)
Definition probing_driver : usb_camera.USBCameraDriver :=
  usb_camera.set_device_index None configured_driver.

(** The configured driver once opened on the camera of index 1. *)
Definition opened_camera : usb_camera.St :=
  snd (usb_camera.open (configured_driver, one_camera)).

Definition want (b : bool) : gmap string bool := {[ "enabled" := b ]}.

(** The service switched on, its loop run up to the point of publishing
    its first frame. *)
Definition about_to_publish : Sys :=
  run off_by_default [PutEnable (want true) 0; Tick 0; Tick 0; Tick 0]
    (boot off_by_default one_camera).

(** The actions that switch the service on and run its loop up to the
    point of publishing its first frame, and then through the publish. *)
Definition until_publish : list Action :=
  [PutEnable (want true) 0; Tick 0; Tick 0; Tick 0].

Definition published : Sys :=
  run off_by_default (until_publish ++ [Tick 0]) (boot off_by_default one_camera).

End service.

(* ===================================================================== *)
(** ** Proof automation *)
(* ===================================================================== *)

(** Unfold the monad, on the driver and on the process. *)
Ltac run_eff :=
  cbv beta iota zeta delta
    [eff_bind eff_ret raise get modify try_finally try_except zoom lift_res
     usb_camera.world usb_camera.self usb_camera.update usb_camera.local_cap] in *;
  cbn [fst snd] in *.

Ltac run_sys :=
  cbv beta iota zeta delta
    [eff_bind eff_ret raise get modify try_finally try_except zoom lift_res
     api.assign api.in_world api.join api.spawn] in *;
  cbn [fst snd] in *.

(* ===================================================================== *)
(** ** [src/drivers/base.py] *)
(* ===================================================================== *)

Module base.

(** The abstract methods of [DriverBase], for a driver whose state is [T]
    and whose measurements are [M]. *)
Class DriverBase (T M : Type) := {
  open : Eff T unit;
  read : Eff T (option M);
  close : Eff T unit;
}.

(** How a generator stands after the consumer has pulled from it:
    exhausted, ended by an exception, or suspended at its [yield]. *)
Inductive GenEnd :=
  | StopIteration
  | Failed (e : Exn)
  | Suspended.

(** [DriverBase.iter], pulled at most [pulls] times: what it yields, how it
    stands, and the state it leaves. *)
Fixpoint iter {T M} `{DriverBase T M} (pulls : nat) (st : T) : list M * GenEnd * T :=
  match pulls with
  | O => ([], Suspended, st)
  | S pulls' =>
      match read st with
      | (Ok None, st') => ([], StopIteration, st')
      | (Ok (Some m), st') =>
          let '(ms, e, st'') := iter pulls' st' in (m :: ms, e, st'')
      | (Raise e, st') => ([], Failed e, st')
      end
  end.

End base.

(* ===================================================================== *)
(** ** [src/drivers/usb_camera.py]: iteration *)
(* ===================================================================== *)

Module frames.
Import usb_camera.

#[global] Instance usb_driver : base.DriverBase St Measurement :=
  {| base.open := open; base.read := read; base.close := close |}.

(** [USBCameraDriver.iter_frames], pulled at most [pulls] times. *)
Fixpoint iter_frames (pulls : nat) (st : St) : list Measurement * base.GenEnd * St :=
  match pulls with
  | O => ([], base.Suspended, st)
  | S pulls' =>
      match read st with
      | (Ok None, st') => ([], base.StopIteration, st')
      | (Ok (Some m), st') =>
          let '(ms, e, st'') := iter_frames pulls' st' in (m :: ms, e, st'')
      | (Raise e, st') => ([], base.Failed e, st')
      end
  end.

(** What [read()] makes of one answer of the device: the JPEG bytes and the
    metadata, when the capture succeeded, delivered a frame and the frame
    could be encoded. *)
Definition encoded (quality : Z) (shot : bool * option Frame)
  : option (bytes * gmap string string) :=
  match shot with
  | (true, Some frame) =>
      match imencode frame quality with
      | Some buf => Some (buf, ({[ "width" := str (cols frame);
                                   "height" := str (rows frame);
                                   "format" := "jpeg" ]} : gmap string string))
      | None => None
      end
  | _ => None
  end.

(** The answers of a device up to its first miss. *)
Fixpoint leading (quality : Z) (shots : list (bool * option Frame))
  : list (bytes * gmap string string) :=
  match shots with
  | [] => []
  | shot :: shots' =>
      match encoded quality shot with
      | Some x => x :: leading quality shots'
      | None => []
      end
  end.

Definition payload (m : Measurement) : bytes * gmap string string := (data m, meta m).

End frames.

(* ===================================================================== *)
(** ** [scripts/run_usb_camera.py] *)
(* ===================================================================== *)

Module run_usb_camera.
Import usb_camera frames.

(** The files the script has written: path and content.  Printing is left
    out, and writing a file is taken to succeed. *)
Abbreviation Files := (list (string * bytes)).

Definition save (path : string) (content : bytes) : Eff (St * Files) unit :=
  modify (λ s, (fst s, snd s ++ [(path, content)])).

Definition drv {A} (c : Eff St A) : Eff (St * Files) A :=
  zoom fst (λ st s, (st, snd s)) c.

(** [for frame in drv.iter_frames(): i += 1; if i >= n: break]: the loop
    pulls until the generator is exhausted or has yielded [n] frames. *)
Definition pull_frames (n : nat) : Eff (St * Files) nat :=
  λ s, let '(ms, e, st') := iter_frames n (fst s) in
       match e with
       | base.Failed ex => (Raise ex, (st', snd s))
       | _ => (Ok (length ms), (st', snd s))
       end.

(** The body of [main()] once the driver object exists. *)
Definition session : Eff (St * Files) unit :=
  drv open ;;
  m <- drv read ;;
  match m with
  | None => drv close
  | Some m =>
      save "out/frame_0.jpg" (data m) ;;
      pull_frames 10 ;;
      drv close
  end.

(** [main()]: how it ends, the world it leaves and the files it wrote. *)
Definition main (w : World) : Res unit * World * Files :=
  match __init__ (Some 1) 640 480 10 85 CAP_DSHOW with
  | Ok d => let '(r, ((_, w'), files)) := session ((d, w), []) in (r, w', files)
  | Raise e => (Raise e, w, [])
  end.

End run_usb_camera.

(* ===================================================================== *)
(** ** [driver.py]: the retry loop of the uploader *)
(* ===================================================================== *)

Module uploader.

(** How [write_api.write(...)] ended. *)
Inductive WriteResult :=
  | Written
  | ApiException
  | OtherException.

Definition PERIOD_SEC : Q := 1.
Definition max_backoff : Q := 30.

(** One pass through [while True] in [main()]: how long it sleeps and the
    [backoff_sec] it leaves. *)
Definition pass (r : WriteResult) (backoff_sec : Q) : Q * Q :=
  match r with
  | Written => (PERIOD_SEC, 1%Q)
  | ApiException | OtherException =>
      (backoff_sec, Qmin max_backoff (backoff_sec * 2))
  end.

(** The loop over the outcomes of its writes: the sleeps in order and the
    final [backoff_sec]. *)
Fixpoint passes (results : list WriteResult) (backoff_sec : Q) : list Q * Q :=
  match results with
  | [] => ([], backoff_sec)
  | r :: results' =>
      let '(slept, b) := pass r backoff_sec in
      let '(sleeps, b') := passes results' b in
      (slept :: sleeps, b')
  end.

(** [backoff_sec = 1.0] and then the loop. *)
Definition main_loop (results : list WriteResult) : list Q * Q := passes results 1.

(** The number of failed writes since the last one that went through. *)
Fixpoint streak (results : list WriteResult) (k : nat) : nat :=
  match results with
  | [] => k
  | Written :: results' => streak results' 0
  | _ :: results' => streak results' (S k)
  end.

Definition pow2 (k : nat) : Q := inject_Z (2 ^ Z.of_nat k).

End uploader.

(* ===================================================================== *)
(** ** Further vocabulary for the service *)
(* ===================================================================== *)

Module service_more.
Import api service.



(** Metadata as the driver builds it. *)
Definition frame_meta (m : gmap string string) : Prop :=
  ∃ r c : N, m = {[ "width" := str c; "height" := str r; "format" := "jpeg" ]}.

(** Payload and metadata go together: both absent, or the payload with the
    metadata of a frame; and every loop about to publish holds such a
    pair. *)
Definition paired (s : Sys) : Prop :=
  match latest_frame (grabber s) with
  | None => latest_meta (grabber s) = ∅
  | Some _ => frame_meta (latest_meta (grabber s))
  end
  ∧ ∀ t m, threads s !! t = Some (AtPublish m) → frame_meta (meta m).




(** How many steps a loop needs at most to exit once asked to stop. *)
Definition rank (pc : Pc) : nat :=
  match pc with
  | AtRead => 3
  | AtEntry | AtSleep | AtPublish _ => 2
  | AtWhile => 1
  | Exited => 0
  end.

(** *** More sample worlds *)

(** A camera on index 1 that opens once and delivers two frames, then
    misses. *)
Definition two_frames : World :=
  {| clock := 0; wallclock := "2025-10-23T12:34:56.789Z";
     devices := {[ 1 := {| attach := [true];
                           shots := [(true, Some picture); (true, Some picture);
                                     (false, None); (true, Some picture)] |} ]};
     held := []; oversleep := []; log := [] |}.

(** The configured driver pointed at index 2, opened once and opened
    again without a close in between. *)
Definition second_driver : usb_camera.USBCameraDriver :=
  usb_camera.set_device_index (Some 2) configured_driver.
Definition opened_once : usb_camera.St := snd (usb_camera.open (second_driver, three_slots)).
Definition opened_twice : usb_camera.St := snd (usb_camera.open opened_once).

(** The service switched on and its loop past the entry, and the same
    state once [stop()] has set the stop event. *)
Definition loop_started : Sys :=
  run off_by_default [PutEnable (want true) 0; Tick 0] (boot off_by_default one_camera).
Definition asked_to_stop : Sys := on_grabber (set_stop_evt true) loop_started.

End service_more.

Ltac run_script :=
  cbv beta iota zeta delta
    [run_usb_camera.session run_usb_camera.drv run_usb_camera.save
     run_usb_camera.pull_frames eff_bind eff_ret modify zoom] in *;
  cbn [fst snd] in *.

(* ===================================================================== *)
(** ** The driver *)
(* ===================================================================== *)

Module driver_facts.
Import usb_camera driver_life frames.

#[local] Arguments _grab_encoded : simpl never.
#[local] Arguments _probe_device_index : simpl never.
#[local] Arguments open : simpl never.
#[local] Arguments read : simpl never.
#[local] Arguments close : simpl never.
#[local] Arguments VideoCapture : simpl never.
#[local] Arguments cap_read : simpl never.
#[local] Arguments cap_release : simpl never.
#[local] Arguments cap_set : simpl never.
#[local] Arguments cap_del : simpl never.
#[local] Arguments sleep : simpl never.

(** The divisor of the constructor is in the range of a float exactly
    when [fps] is below the limit. *)
Lemma fits_max f : fits (Z.max 1 f) = (f <? FLOAT_LIMIT).
Proof.
  assert (1 < FLOAT_LIMIT) as H1 by reflexivity. unfold fits.
  destruct (Z.ltb_spec (Z.abs (Z.max 1 f)) FLOAT_LIMIT), (Z.ltb_spec f FLOAT_LIMIT);
    try reflexivity; exfalso; lia.
Qed.

(** The constructor, outcome by outcome. *)
Lemma init_spec di wd h f q b :
  __init__ di wd h f q b
  = if f <? FLOAT_LIMIT then
      Ok {| device_index := di; width := wd; height := h; fps := f; jpeg_quality := q;
            backend := b; _cap := None; _last_frame_ts := 0;
            _frame_interval := 1 / inject_Z (Z.max 1 f) |}
    else Raise OverflowError.
Proof.
  unfold __init__, truediv, float. rewrite fits_max.
  destruct (f <? FLOAT_LIMIT); [|reflexivity].
  destruct (Z.eqb_spec (Z.max 1 f) 0) as [E|E]; [lia|reflexivity].
Qed.

(** A driver comes out of the constructor unopened, with the settings it
    was given. *)
Lemma init_cap di wd h f q b d :
  __init__ di wd h f q b = Ok d → _cap d = None.
Proof.
  rewrite init_spec. destruct (f <? FLOAT_LIMIT); [|done]. by intros [= <-].
Qed.

Lemma init_fields di wd h f q b d :
  __init__ di wd h f q b = Ok d →
  device_index d = di ∧ width d = wd ∧ height d = h ∧ fps d = f ∧ jpeg_quality d = q.
Proof.
  rewrite init_spec. destruct (f <? FLOAT_LIMIT); [|done]. by intros [= <-].
Qed.

Lemma init_interval di wd h f q b d :
  __init__ di wd h f q b = Ok d →
  _frame_interval d = (1 / inject_Z (Z.max 1 f))%Q ∧ fps d = f.
Proof.
  rewrite init_spec. destruct (f <? FLOAT_LIMIT); [|done]. by intros [= <-].
Qed.

(** The constructor returns, or raises [OverflowError]. *)
Lemma init_cases di wd h f q b :
  (∃ d, __init__ di wd h f q b = Ok d)
  ∨ __init__ di wd h f q b = Raise OverflowError.
Proof. rewrite init_spec. destruct (f <? FLOAT_LIMIT); eauto. Qed.

(** C9, as stated, fails beyond the range of a float: for [fps = 2^1024]
    the divisor [max(1, fps)] cannot be converted and the constructor
    raises. *)
Lemma init_overflows :
  ¬ (∀ f : Z, ∃ d, __init__ None 640 480 f 85 CAP_DSHOW = Ok d).
Proof.
  intros H. destruct (H (2 ^ 1024)) as [d Hd].
  rewrite init_spec in Hd. discriminate Hd.
Qed.

(** C9, amended.  The constructor never divides by zero: the divisor
    [max(1, fps)] is at least one.  For every [fps] below the limit of the
    float range -- zero and the negative ones included -- it returns a
    driver whose pacing interval is [1 / max(1, fps)], one second when
    [fps] is zero or negative; from the limit on it raises
    [OverflowError]. *)
Theorem init_outcomes (di : option Z) (wd h f q b : Z) :
  Z.max 1 f ≠ 0
  ∧ __init__ di wd h f q b ≠ Raise ZeroDivisionError
  ∧ if f <? FLOAT_LIMIT then
      ∃ d, __init__ di wd h f q b = Ok d
           ∧ _frame_interval d = (1 / inject_Z (Z.max 1 f))%Q
           ∧ (if f <=? 0 then _frame_interval d == 1
              else _frame_interval d == 1 / inject_Z f)%Q
    else __init__ di wd h f q b = Raise OverflowError.
Proof.
  split; [lia|]. rewrite init_spec.
  destruct (f <? FLOAT_LIMIT); [|done]. split; [done|].
  eexists; split; [reflexivity|]. cbn [_frame_interval].
  split; [reflexivity|].
  destruct (Z.leb_spec f 0).
  - replace (Z.max 1 f) with 1 by lia. reflexivity.
  - replace (Z.max 1 f) with f by lia. reflexivity.
Qed.

(** [read()] on a driver without a capture raises and changes nothing. *)
Lemma read_unopened st :
  _cap (fst st) = None → read st = (Raise (RuntimeError CallOpenFirst), st).
Proof. intros H. unfold read. run_eff. rewrite H. reflexivity. Qed.

Lemma grab_opened st c :
  _cap (fst st) = Some c → ∃ o st', _grab_encoded st = (Ok o, st') ∧ fst st' = fst st.
Proof.
  destruct st as [d w]. cbn [fst]. intros H.
  unfold _grab_encoded. run_eff. rewrite H. unfold cap_read. cbn [fst snd].
  destruct (default (false, None) (head (shots (device w c)))) as [[] [fr|]];
    try destruct (imencode fr _); eauto.
Qed.

(** With a capture, [read()] returns: a measurement or [None]. *)
Lemma read_opened st c :
  _cap (fst st) = Some c → ∃ m st', read st = (Ok m, st') ∧ _cap (fst st') = Some c.
Proof.
  destruct st as [d w]. cbn [fst]. intros H.
  unfold read. run_eff. rewrite H.
  unfold perf_counter. cbn [fst snd].
  destruct (Qlt_le_dec _ _); unfold sleep; cbn [fst snd].
  all: match goal with |- context [_grab_encoded ?s] =>
         destruct (grab_opened s c H) as (o & st' & -> & E) end.
  all: destruct o as [[? ?]|]; unfold now_iso; cbn;
    (do 2 eexists; split; [reflexivity|]); cbn; rewrite ?E; cbn; exact H.
Qed.

Lemma close_cap st : ∃ st', close st = (Ok tt, st') ∧ _cap (fst st') = None.
Proof.
  destruct st as [d w].
  unfold close. run_eff. destruct (_cap d) eqn:E; cbn; eauto.
Qed.

(** [open()] either raises, leaving [_cap] as it was, or returns with a
    capture. *)
Lemma open_cap st :
  match open st with
  | (Ok _, st') => is_Some (_cap (fst st'))
  | (Raise _, st') => _cap (fst st') = _cap (fst st)
  end.
Proof.
  destruct st as [d w].
  unfold open. run_eff.
  destruct (device_index d) as [i|].
  - repeat (case_match; simplify_eq/=); eauto.
  - repeat (case_match; simplify_eq/=); eauto.
Qed.

Lemma history_cap calls : ∀ l st l' st',
  (l = Opened ↔ is_Some (_cap (fst st))) →
  history calls l st = (l', st') →
  (l' = Opened ↔ is_Some (_cap (fst st'))).
Proof.
  induction calls as [|c calls IH]; intros l st l' st' Hl; cbn.
  - intros [= <- <-]. exact Hl.
  - destruct (invoke c st) as [failed st1] eqn:Ec. apply IH.
    destruct c; cbn in Ec.
    + pose proof (open_cap st) as Ho.
      destruct (open st) as [r s1]. injection Ec as <- <-. destruct r; cbn.
      * split; [intros _; exact Ho | reflexivity].
      * rewrite Ho. exact Hl.
    + destruct (is_Some_dec (_cap (fst st))) as [[c Hc]|Hn].
      * destruct (read_opened st c Hc) as (m & s1 & Er & Hc').
        rewrite Er in Ec. injection Ec as <- <-. cbn. rewrite Hc', <- Hc. exact Hl.
      * assert (_cap (fst st) = None) as Hc by (destruct (_cap (fst st)); [exfalso; eauto|done]).
        rewrite (read_unopened st Hc) in Ec. injection Ec as <- <-. exact Hl.
    + destruct (close_cap st) as (s1 & Ecl & Hc). rewrite Ecl in Ec.
      injection Ec as <- <-. rewrite Hc. cbn.
      split; [destruct l; discriminate | intros [? [=]]].
Qed.

(** C7.  Along every history of calls on a fresh driver, [read()] raises
    the call-open-first error (the specification's NotOpen) whenever the
    driver is not Opened -- never opened, failed to open, or closed -- and
    returns (a measurement or "no frame") when it is Opened. *)
Theorem read_needs_open (di : option Z) (wd h f q b : Z) (d0 : USBCameraDriver)
    (w : World) (calls : list Call) :
  __init__ di wd h f q b = Ok d0 →
  let '(l, st) := history calls Unopened (d0, w) in
  match l with
  | Opened => ∃ m st', read st = (Ok m, st')
  | Unopened | Closed =>
      read st = (Raise (RuntimeError CallOpenFirst), st)
      ∧ error_kind (RuntimeError CallOpenFirst) = Some NotOpen
  end.
Proof.
  intros Hi. destruct (history calls Unopened (d0, w)) as [l st] eqn:Eh.
  assert (l = Opened ↔ is_Some (_cap (fst st))) as Hl.
  { eapply history_cap; [|exact Eh]. cbn. rewrite (init_cap _ _ _ _ _ _ _ Hi).
    split; [discriminate | intros [? [=]]]. }
  assert (l ≠ Opened → _cap (fst st) = None) as Hn.
  { intros Hne. destruct (_cap (fst st)) eqn:E; [|done].
    exfalso. apply Hne, Hl. eauto. }
  destruct l.
  - split; [apply read_unopened, Hn; discriminate | reflexivity].
  - destruct (proj1 Hl eq_refl) as [c Hc].
    destruct (read_opened st c Hc) as (m & st' & Er & _). eauto.
  - split; [apply read_unopened, Hn; discriminate | reflexivity].
Qed.

(** *** Probing *)

Lemma device_set_device_ne w i j d : i ≠ j → device (set_device i d w) j = device w j.
Proof. intros H. unfold device, set_device; cbn. by rewrite lookup_insert_ne. Qed.

Lemma remove_one_head i l : remove_one i (i :: l) = l.
Proof. cbn. by rewrite Z.eqb_refl. Qed.

Lemma device_emit w e i : device (emit e w) i = device w i.
Proof. reflexivity. Qed.

Lemma device_set_held w h i : device (set_held h w) i = device w i.
Proof. reflexivity. Qed.

Lemma device_set_device_eq w i d : device (set_device i d w) i = d.
Proof. unfold device, set_device; cbn. by rewrite lookup_insert_eq. Qed.

Lemma seqZ_step i (n : nat) :
  seqZ i (Z.of_nat (S n)) = i :: seqZ (i + 1) (Z.of_nat n).
Proof.
  rewrite seqZ_cons by lia. f_equal. f_equal; lia.
Qed.

Lemma attempts_app a b : attempts (a ++ b) = attempts a ++ attempts b.
Proof. apply omap_app. Qed.

Lemma grab_times_app a b : grab_times (a ++ b) = grab_times a ++ grab_times b.
Proof. apply omap_app. Qed.

Lemma find_seqZ_range (P : Z → bool) i n k :
  List.find P (seqZ i n) = Some k → i ≤ k < i + n.
Proof.
  intros H. apply find_some in H as [H _].
  apply list_elem_of_In, elem_of_seqZ in H. lia.
Qed.

Lemma seqZ_found_step (P : Z → bool) i (n : nat) :
  seqZ i (match List.find P (seqZ (i + 1) (Z.of_nat n)) with
          | Some k => k - i + 1
          | None => Z.of_nat (S n)
          end)
  = i :: seqZ (i + 1) (match List.find P (seqZ (i + 1) (Z.of_nat n)) with
                       | Some k => k - (i + 1) + 1
                       | None => Z.of_nat n
                       end).
Proof.
  destruct (List.find P (seqZ (i + 1) (Z.of_nat n))) as [k|] eqn:E.
  - apply find_seqZ_range in E. rewrite seqZ_cons by lia. f_equal. f_equal; lia.
  - apply seqZ_step.
Qed.

(** The probe from index [i] on, in a world whose devices from [i] on are
    those of [w0]. *)
Lemma probe_from_spec (n : nat) : ∀ i w0 w,
  (∀ j, i ≤ j → device w j = device w0 j) →
  ∃ w1 evs,
    probe_from i n w = (Ok (List.find (qualifies w0) (seqZ i (Z.of_nat n))), w1)
    ∧ held w1 = held w
    ∧ log w1 = log w ++ evs
    ∧ attempts evs = seqZ i (match List.find (qualifies w0) (seqZ i (Z.of_nat n)) with
                            | Some k => k - i + 1
                            | None => Z.of_nat n
                            end).
Proof.
  induction n as [|n IH]; intros i w0 w Hw.
  - exists w, []. cbn. rewrite app_nil_r. done.
  - rewrite seqZ_step. cbn [List.find probe_from].
    unfold qualifies at 1 3. rewrite <- (Hw i) by lia.
    cbv beta iota zeta delta [eff_bind eff_ret VideoCapture].
    destruct (default false (head (attach (device w i)))) eqn:Ea; cbn [andb].
    + cbv beta iota zeta delta [cap_read cap_release].
      rewrite !device_emit, !device_set_held, !device_set_device_eq. cbn [shots fst].
      destruct (default (false, None) (head (shots (device w i)))) as [ok fr] eqn:Es.
      cbn [fst]. destruct ok.
      * eexists _, [EOpen i CAP_DSHOW true; EGrab i _ true; ERelease i].
        split; [reflexivity|]. split; [cbn; by rewrite Z.eqb_refl|].
        split; [cbn; by rewrite <- !app_assoc|].
        replace (i - i + 1) with 1 by lia. reflexivity.
      * match goal with |- context [probe_from (i + 1) n ?w'] =>
          destruct (IH (i + 1) w0 w') as (w1 & evs & -> & Hh & Hl & Ha) end.
        { intros j Hj.
          repeat (rewrite device_emit || rewrite device_set_held
                  || rewrite device_set_device_ne by lia).
          apply Hw; lia. }
        eexists w1, ([EOpen i CAP_DSHOW true; EGrab i _ false; ERelease i] ++ evs).
        split; [reflexivity|]. split; [rewrite Hh; cbn; by rewrite Z.eqb_refl|].
        split; [rewrite Hl; cbn; by rewrite <- !app_assoc|].
        rewrite attempts_app, Ha. symmetry. apply seqZ_found_step.
    + match goal with |- context [probe_from (i + 1) n ?w'] =>
        destruct (IH (i + 1) w0 w') as (w1 & evs & -> & Hh & Hl & Ha) end.
      { intros j Hj.
        repeat (rewrite device_emit || rewrite device_set_held
                || rewrite device_set_device_ne by lia).
        apply Hw; lia. }
      eexists w1, ([EOpen i CAP_DSHOW false] ++ evs).
      split; [reflexivity|]. split; [by rewrite Hh|].
      split; [rewrite Hl; cbn; by rewrite <- !app_assoc|].
      rewrite attempts_app, Ha. symmetry. apply seqZ_found_step.
Qed.

Lemma added_app w w' evs : log w' = log w ++ evs → added w w' = evs.
Proof. unfold added. intros ->. apply drop_app_length. Qed.

(** [open()] with an explicit index: the capture is bound to that index;
    a failure leaves the driver as it was. *)
Lemma open_explicit d w i :
  device_index d = Some i →
  match open (d, w) with
  | (Ok _, (d', _)) => _cap d' = Some i ∧ device_index d' = Some i
  | (Raise _, (d', _)) => d' = d
  end.
Proof.
  intros Hi. unfold open. run_eff. rewrite Hi.
  repeat (case_match; simplify_eq/=); eauto.
Qed.

(** C6.  Without an explicit device index, [open()] probes the indices
    0, 1, ... in ascending order, at most up to 9, and stops at the first
    whose capture opens and whose verification read succeeds; [open()]
    then goes on with that index as its [device_index].  When no index in
    0..9 qualifies, [open()] raises the no-camera error (the
    specification's DeviceUnavailable), the driver is unchanged and no
    capture is left open. *)
Theorem open_probes (d : USBCameraDriver) (w : World) :
  device_index d = None →
  let first := List.find (qualifies w) (seqZ 0 10) in
  ∃ w1,
    _probe_device_index 10 w = (Ok first, w1)
    ∧ attempts (added w w1) = seqZ 0 (match first with Some i => i + 1 | None => 10 end)
    ∧ held w1 = held w
    ∧ match first with
      | Some i =>
          open (d, w) = open (set_device_index (Some i) d, w1)
          ∧ device_index (fst (snd (open (d, w)))) = Some i
          ∧ match fst (open (d, w)) with
            | Ok _ => _cap (fst (snd (open (d, w)))) = Some i
            | Raise _ => True
            end
      | None =>
          open (d, w) = (Raise (RuntimeError NoCameraFound), (d, w1))
          ∧ error_kind (RuntimeError NoCameraFound) = Some DeviceUnavailable
      end.
Proof.
  intros Hd first.
  destruct (probe_from_spec 10 0 w w) as (w1 & evs & Hp & Hh & Hl & Ha); [done|].
  change (Z.of_nat 10) with 10 in *. fold first in Hp, Ha.
  exists w1. unfold _probe_device_index. change (Z.to_nat 10) with 10%nat.
  split; [exact Hp|]. split.
  { rewrite (added_app _ _ _ Hl), Ha. destruct first; f_equal; lia. }
  split; [exact Hh|].
  assert (∀ i, first = Some i →
            open (d, w) = open (set_device_index (Some i) d, w1)) as Hopen.
  { intros i Hf. unfold open at 1 2. run_eff. rewrite Hd. cbn [device_index set_device_index].
    unfold _probe_device_index. change (Z.to_nat 10) with 10%nat. cbn [fst snd].
    rewrite Hp, Hf. reflexivity. }
  destruct first as [i|] eqn:Hf.
  - rewrite (Hopen i eq_refl).
    pose proof (open_explicit (set_device_index (Some i) d) w1 i eq_refl) as Ho.
    destruct (open (set_device_index (Some i) d, w1)) as [[u|e] [d' w']]; cbn.
    + destruct Ho as [Hc Hi]. done.
    + subst d'. done.
  - split; [|reflexivity]. unfold open. run_eff. rewrite Hd.
    unfold _probe_device_index. change (Z.to_nat 10) with 10%nat. cbn [fst snd].
    rewrite Hp. reflexivity.
Qed.

(** *** Pacing *)

(** One [read()] on an opened driver, step by step. *)
Lemma read_step d w c :
  _cap d = Some c →
  let dt := (clock w - _last_frame_ts d)%Q in
  let iv := _frame_interval d in
  ∃ m d' w' ok,
    read (d, w) = (Ok m, (d', w'))
    ∧ log w' = log w ++ (if Qlt_le_dec dt iv then [ESleep (iv - dt)] else [])
                     ++ [EGrab c (clock w') ok]
    ∧ clock w' = (if Qlt_le_dec dt iv
                  then clock w + (iv - dt) + default 0 (head (oversleep w))
                  else clock w)%Q
    ∧ oversleep w' = (if Qlt_le_dec dt iv then tail (oversleep w) else oversleep w)
    ∧ _last_frame_ts d' = clock w'
    ∧ _cap d' = Some c
    ∧ _frame_interval d' = iv.
Proof.
  intros Hc dt iv. unfold read. run_eff. rewrite Hc.
  unfold perf_counter. cbn [fst snd]. fold dt iv.
  unfold _grab_encoded. run_eff.
  destruct (Qlt_le_dec dt iv) as [Hlt|Hge].
  - unfold sleep, cap_read, now_iso.
    cbn [fst snd clock emit set_oversleep set_clock _cap set_last_frame_ts].
    rewrite Hc. cbn [fst snd].
    match goal with |- context [default (false, None) ?x] =>
      destruct (default (false, None) x) as [[] [fr|]] end;
      try destruct (imencode fr _);
      (do 4 eexists; split; [reflexivity|]; cbn; rewrite <- ?app_assoc; done).
  - unfold cap_read, now_iso. cbn [fst snd clock emit _cap set_last_frame_ts].
    rewrite Hc. cbn [fst snd].
    match goal with |- context [default (false, None) ?x] =>
      destruct (default (false, None) x) as [[] [fr|]] end;
      try destruct (imencode fr _);
      (do 4 eexists; split; [reflexivity|]; cbn; done).
Qed.

Lemma head_nonneg l : Forall nonneg l → (0 <= default 0 (head l))%Q.
Proof. destruct 1; cbn; [lra|done]. Qed.

Lemma tail_nonneg l : Forall nonneg l → Forall nonneg (tail l).
Proof. destruct 1; cbn; [constructor|done]. Qed.

(** A session of reads: one capture per read, neighbours at least the
    interval apart, the first no sooner than the interval after the
    recorded previous one. *)
Lemma reads_spaced delays : ∀ d w c,
  _cap d = Some c →
  Forall nonneg delays → Forall nonneg (oversleep w) →
  ∃ evs,
    log (snd (reads delays (d, w))) = log w ++ evs
    ∧ _frame_interval (fst (reads delays (d, w))) = _frame_interval d
    ∧ length (grab_times evs) = length delays
    ∧ spaced (_frame_interval d) (grab_times evs)
    ∧ match grab_times evs with
      | t :: _ => (clock w <= t)%Q ∧ (_last_frame_ts d + _frame_interval d <= t)%Q
      | [] => True
      end.
Proof.
  induction delays as [|delay delays IH]; intros d w c Hc Hd Ho.
  - exists []. cbn. rewrite app_nil_r. done.
  - apply Forall_cons in Hd as [Hdelay Hd]. cbn [reads fst snd].
    destruct (read_step d (wait delay w) c Hc)
      as (m & d' & w' & ok & -> & Hl & Hk & Hov & Hts & Hc' & Hiv).
    cbn [fst snd]. cbn [wait set_clock clock oversleep] in Hl, Hk, Hov.
    assert (Forall nonneg (oversleep w')) as Ho'.
    { rewrite Hov. destruct (Qlt_le_dec _ _); [by apply tail_nonneg|done]. }
    destruct (IH d' w' c Hc' Hd Ho') as (evs & Hl2 & Hiv2 & Hn & Hsp & Hhd).
    pose proof (head_nonneg _ Ho) as Hx. unfold nonneg in Hdelay.
    assert (clock w <= clock w' ∧ _last_frame_ts d + _frame_interval d <= clock w')%Q
      as [Hb1 Hb2].
    { rewrite Hk. destruct (Qlt_le_dec _ _) as [Hlt|Hge]; split; lra. }
    exists (((if Qlt_le_dec (clock w + delay - _last_frame_ts d) (_frame_interval d)
              then [ESleep (_frame_interval d - (clock w + delay - _last_frame_ts d))]
              else []) ++ [EGrab c (clock w') ok]) ++ evs).
    split.
    { rewrite Hl2, Hl. cbn [wait set_clock log]. by rewrite <- !app_assoc. }
    split; [by rewrite Hiv2, Hiv|].
    rewrite grab_times_app.
    assert (∀ l, grab_times ((if Qlt_le_dec (clock w + delay - _last_frame_ts d)
                                 (_frame_interval d)
                              then [ESleep (_frame_interval d
                                            - (clock w + delay - _last_frame_ts d))]
                              else []) ++ l) = grab_times l) as Hskip.
    { intros l. destruct (Qlt_le_dec _ _); reflexivity. }
    rewrite Hskip.
    change (grab_times [EGrab c (clock w') ok]) with [clock w']. cbn [app].
    split; [cbn; by rewrite Hn|].
    rewrite Hiv, Hts in Hhd. rewrite Hiv in Hsp.
    split.
    + destruct (grab_times evs) as [|t ts] eqn:Eg; [done|].
      cbn [spaced]. split; [tauto | exact Hsp].
    + done.
Qed.

(** C5.  On an opened driver the pacing interval is [1 / max(1, fps)],
    which is [1 / fps] for every [fps >= 1] (and one second otherwise).  A
    [read()] that arrives [dt] after the previous one with [dt] short of
    the interval sleeps exactly [interval - dt], and in every case makes
    exactly one underlying capture, stamped with the time [read()] records
    as [_last_frame_ts]; and however long the caller waits between the
    calls of a session of reads, there is one capture per call and
    neighbouring captures are at least the interval apart. *)
Theorem read_paces (di : option Z) (wd h f q b : Z) (d0 d : USBCameraDriver)
    (w0 w : World) (delays : list Q) :
  __init__ di wd h f q b = Ok d0 →
  open (d0, w0) = (Ok tt, (d, w)) →
  Forall nonneg delays →
  Forall nonneg (oversleep w) →
  let iv := (1 / inject_Z (Z.max 1 f))%Q in
  let st' := reads delays (d, w) in
  (_frame_interval d = iv ∧ _frame_interval (fst st') = iv
   ∧ if 1 <=? f then iv = (1 / inject_Z f)%Q else (iv == 1)%Q)
  ∧ (∀ d1 w1 c, _cap d1 = Some c →
       let dt := (clock w1 - _last_frame_ts d1)%Q in
       ∃ m d2 w2 ok,
         read (d1, w1) = (Ok m, (d2, w2))
         ∧ added w1 w2
           = (if Qlt_le_dec dt (_frame_interval d1)
              then [ESleep (_frame_interval d1 - dt)] else [])
             ++ [EGrab c (clock w2) ok]
         ∧ _last_frame_ts d2 = clock w2)
  ∧ length (grab_times (added w (snd st'))) = length delays
  ∧ spaced iv (grab_times (added w (snd st'))).
Proof.
  intros Hi Ho Hd Hs iv st'.
  assert (_frame_interval d0 = iv) as Hiv0
    by (by destruct (init_interval _ _ _ _ _ _ _ Hi) as [-> _]).
  pose proof (open_cap (d0, w0)) as Hcap. rewrite Ho in Hcap. cbn in Hcap.
  destruct Hcap as [c Hc].
  assert (_frame_interval d = iv) as Hiv.
  { rewrite <- Hiv0. clear -Ho. unfold open in Ho. run_eff.
    repeat (case_match; simplify_eq/=); reflexivity. }
  destruct (reads_spaced delays d w c Hc Hd Hs) as (evs & Hl & Hiv' & Hn & Hsp & _).
  fold st' in Hl, Hiv'. rewrite (added_app _ _ _ Hl).
  split.
  { split; [exact Hiv|]. split; [by rewrite Hiv', Hiv|]. unfold iv.
    destruct (Z.leb_spec 1 f).
    - by rewrite Z.max_r.
    - rewrite Z.max_l by lia. reflexivity. }
  split.
  { intros d1 w1 c1 Hc1 dt.
    destruct (read_step d1 w1 c1 Hc1) as (m & d2 & w2 & ok & Hr & Hl1 & _ & _ & Hts & _).
    exists m, d2, w2, ok. split; [exact Hr|]. split; [|exact Hts].
    apply added_app. exact Hl1. }
  split; [exact Hn|]. rewrite <- Hiv. exact Hsp.
Qed.

Lemma set_cap_none d : _cap d = None → set_cap None d = d.
Proof. destruct d. cbn. by intros ->. Qed.

(** [open()] with an explicit index, outcome by outcome. *)
Lemma open_explicit_run d w i :
  device_index d = Some i →
  ∃ w',
    match head (attach (device w i)) with
    | Some true =>
        if fits (width d) && fits (height d) && fits (fps d) then
          match head (shots (device w i)) with
          | Some (true, _) =>
              open (d, w) = (Ok tt, (set_last_frame_ts 0 (set_cap (Some i) d), w'))
              ∧ held w' = match _cap d with
                          | Some c => remove_one c (i :: held w)
                          | None => i :: held w
                          end
          | _ =>
              open (d, w) = (Raise (RuntimeError OpenedButNoFrame), (d, w'))
              ∧ held w' = held w
          end
        else
          open (d, w) = (Raise OverflowError, (d, w'))
          ∧ held w' = held w
    | _ =>
        open (d, w) = (Raise (RuntimeError (CannotOpenCamera i)), (d, w'))
        ∧ held w' = held w
    end
    ∧ attempts (added w w') = [i]
    ∧ clock w' = clock w
    ∧ shots (device w' i)
      = match head (attach (device w i)) with
        | Some true =>
            if fits (width d) && fits (height d) && fits (fps d)
            then tail (shots (device w i)) else shots (device w i)
        | _ => shots (device w i)
        end
    ∧ ∀ j, j ≠ i → device w' j = device w j.
Proof.
  intros Hi. unfold open. run_eff. rewrite Hi.
  cbv beta iota zeta delta
    [eff_bind eff_ret VideoCapture cap_set cap_read cap_release cap_del float].
  cbn [fst snd].
  repeat (rewrite device_emit || rewrite device_set_held || rewrite device_set_device_eq).
  destruct (head (attach (device w i))) as [[]|] eqn:Ea; cbn -[device].
  - destruct (fits (width d)); cbn -[device];
      [destruct (fits (height d)); cbn -[device];
       [destruct (fits (fps d)); cbn -[device]|]|].
    + repeat (rewrite device_emit || rewrite device_set_held
              || rewrite device_set_device_eq).
      cbn -[device].
      destruct (head (shots (device w i))) as [[[] fr]|] eqn:Es; cbn -[device];
        [destruct (_cap d) eqn:Ec; cbn -[device]|..].
      all: eexists; (split; [split; [reflexivity|]|]);
        [by rewrite ?Z.eqb_refl | split; [|split; [reflexivity|split]]];
        [unfold added; cbn -[device]; rewrite <- ?app_assoc;
         rewrite drop_app_length; reflexivity
        |repeat (rewrite device_emit || rewrite device_set_held
                 || rewrite device_set_device_eq || cbn [shots]); reflexivity
        |intros j Hj;
         repeat (rewrite device_emit || rewrite device_set_held
                 || rewrite device_set_device_ne by done); reflexivity].
    + eexists; (split; [split; [reflexivity|]|]);
        [by rewrite ?Z.eqb_refl | split; [|split; [reflexivity|split]]];
        [unfold added; cbn -[device]; rewrite <- ?app_assoc;
         rewrite drop_app_length; reflexivity
        |repeat (rewrite device_emit || rewrite device_set_held
                 || rewrite device_set_device_eq || cbn [shots]); reflexivity
        |intros j Hj;
         repeat (rewrite device_emit || rewrite device_set_held
                 || rewrite device_set_device_ne by done); reflexivity].
    + eexists; (split; [split; [reflexivity|]|]);
        [by rewrite ?Z.eqb_refl | split; [|split; [reflexivity|split]]];
        [unfold added; cbn -[device]; rewrite <- ?app_assoc;
         rewrite drop_app_length; reflexivity
        |repeat (rewrite device_emit || rewrite device_set_held
                 || rewrite device_set_device_eq || cbn [shots]); reflexivity
        |intros j Hj;
         repeat (rewrite device_emit || rewrite device_set_held
                 || rewrite device_set_device_ne by done); reflexivity].
    + eexists; (split; [split; [reflexivity|]|]);
        [by rewrite ?Z.eqb_refl | split; [|split; [reflexivity|split]]];
        [unfold added; cbn -[device]; rewrite <- ?app_assoc;
         rewrite drop_app_length; reflexivity
        |repeat (rewrite device_emit || rewrite device_set_held
                 || rewrite device_set_device_eq || cbn [shots]); reflexivity
        |intros j Hj;
         repeat (rewrite device_emit || rewrite device_set_held
                 || rewrite device_set_device_ne by done); reflexivity].
  - eexists. split; [split; reflexivity|]. split; [|split; [reflexivity|split]].
    + unfold added. cbn -[device]. rewrite drop_app_length. reflexivity.
    + by rewrite device_emit, device_set_device_eq.
    + intros j Hj. by rewrite device_emit, device_set_device_ne.
  - eexists. split; [split; reflexivity|]. split; [|split; [reflexivity|split]].
    + unfold added. cbn -[device]. rewrite drop_app_length. reflexivity.
    + by rewrite device_emit, device_set_device_eq.
    + intros j Hj. by rewrite device_emit, device_set_device_ne.
Qed.

(** What [open()] answers depends on the device tapes only. *)
Lemma open_fst_devices d i w w' :
  device_index d = Some i → device w' i = device w i →
  fst (open (d, w')) = fst (open (d, w)).
Proof.
  intros Hi Hd.
  destruct (open_explicit_run d w i Hi) as (w1 & H1 & _).
  destruct (open_explicit_run d w' i Hi) as (w2 & H2 & _).
  rewrite Hd in H2.
  destruct (head (attach (device w i))) as [[]|];
    [destruct (fits (width d) && fits (height d) && fits (fps d));
     [destruct (head (shots (device w i))) as [[[] ?]|]|]|..];
    destruct H1 as [-> _], H2 as [-> _]; reflexivity.
Qed.

(** [close()], step by step. *)
Lemma close_run d w :
  ∃ w', close (d, w) = (Ok tt, (set_cap None d, w'))
        ∧ held w' = match _cap d with
                    | Some c => remove_one c (held w)
                    | None => held w
                    end
        ∧ devices w' = devices w ∧ clock w' = clock w.
Proof.
  unfold close. run_eff. destruct (_cap d) as [c|] eqn:Ec.
  - unfold cap_release. cbn. eexists. split; [reflexivity|]. done.
  - exists w. cbn. rewrite set_cap_none by done. done.
Qed.

(** [open()], with or without probing: on success the driver is bound to
    a new capture, which is held, and has let go of the one it was bound
    to; on failure nothing more is held. *)
Lemma open_held d w :
  match open (d, w) with
  | (Ok _, (d', w')) =>
      ∃ i, _cap d' = Some i
           ∧ held w' = match _cap d with
                       | Some c => remove_one c (i :: held w)
                       | None => i :: held w
                       end
  | (Raise _, (d', w')) => _cap d' = _cap d ∧ held w' = held w
  end.
Proof.
  destruct (usb_camera.device_index d) as [i|] eqn:Hi.
  - destruct (open_explicit_run d w i Hi) as (w' & H & _).
    destruct (head (attach (device w i))) as [[]|];
      [destruct (fits (width d) && fits (height d) && fits (fps d));
       [destruct (head (shots (device w i))) as [[[] ?]|]|]|..];
      destruct H as [-> Hh]; cbn; eauto.
  - destruct (probe_from_spec 10 0 w w) as (w1 & evs & Hp & Hh & _); [done|].
    change (Z.of_nat 10) with 10 in Hp.
    destruct (List.find (qualifies w) (seqZ 0 10)) as [i|] eqn:Hf.
    + assert (open (d, w) = open (set_device_index (Some i) d, w1)) as ->.
      { unfold open at 1 2. run_eff. rewrite Hi. cbn [usb_camera.device_index set_device_index].
        unfold _probe_device_index. change (Z.to_nat 10) with 10%nat. cbn [fst snd].
        rewrite Hp. reflexivity. }
      destruct (open_explicit_run (set_device_index (Some i) d) w1 i eq_refl)
        as (w' & H & _).
      rewrite <- Hh. cbn [width height fps _cap set_device_index] in H.
      destruct (head (attach (device w1 i))) as [[]|];
        [destruct (fits (width d) && fits (height d) && fits (fps d));
         [destruct (head (shots (device w1 i))) as [[[] ?]|]|]|..];
        destruct H as [-> Hh']; cbn; eauto.
    + unfold open. run_eff. rewrite Hi.
      unfold _probe_device_index. change (Z.to_nat 10) with 10%nat. cbn [fst snd].
      rewrite Hp. cbn. done.
Qed.

Lemma remove_one_swap i c l : remove_one i (remove_one c (i :: l)) = remove_one c l.
Proof.
  cbn. destruct (Z.eqb_spec c i) as [->|Hne]; [reflexivity|].
  cbn. by rewrite Z.eqb_refl.
Qed.

(** One [read()] on an opened driver, in terms of the next answer of its
    device. *)
Lemma read_shot d w c :
  _cap d = Some c →
  ∃ d' w',
    read (d, w)
    = (Ok (match encoded (jpeg_quality d)
                   (default (false, None) (head (shots (device w c)))) with
           | Some (buf, mt) =>
               Some {| timestamp := wallclock w; data := buf; meta := mt;
                       semantic_id := None |}
           | None => None
           end),
       (d', w'))
    ∧ d' = set_last_frame_ts (clock w') d
    ∧ shots (device w' c) = tail (shots (device w c))
    ∧ held w' = held w
    ∧ wallclock w' = wallclock w.
Proof.
  intros Hc. unfold read. run_eff. rewrite Hc.
  unfold perf_counter, _grab_encoded. run_eff. cbn [_cap set_last_frame_ts]. 
  destruct (Qlt_le_dec _ _).
  - unfold sleep, cap_read, now_iso.
    cbn [fst snd clock emit set_oversleep set_clock _cap set_last_frame_ts]. rewrite Hc.
    cbn [fst snd].
    repeat (rewrite device_emit).
    change (device (set_oversleep ?o (set_clock ?t w)) c) with (device w c).
    unfold encoded.
    destruct (default (false, None) (head (shots (device w c)))) as [[] [fr|]];
      try destruct (imencode fr _);
      (do 2 eexists; split; [reflexivity|]; cbn -[device];
       rewrite ?device_emit, ?device_set_device_eq; done).
  - unfold cap_read, now_iso. cbn [fst snd clock emit _cap set_last_frame_ts]. rewrite Hc.
    cbn [fst snd]. unfold encoded.
    destruct (default (false, None) (head (shots (device w c)))) as [[] [fr|]];
      try destruct (imencode fr _);
      (do 2 eexists; split; [reflexivity|]; cbn -[device];
       rewrite ?device_emit, ?device_set_device_eq; done).
Qed.

(** *** The frames a driver encodes *)

(** A [read()] touches the tape of its own capture only. *)
Lemma read_other d w c j :
  _cap d = Some c → j ≠ c → device (snd (snd (read (d, w)))) j = device w j.
Proof.
  intros Hc Hj. unfold read. run_eff. rewrite Hc.
  unfold perf_counter, _grab_encoded. run_eff. cbn [_cap set_last_frame_ts].
  destruct (Qlt_le_dec _ _).
  - unfold sleep, cap_read, now_iso.
    cbn [fst snd clock emit set_oversleep set_clock _cap set_last_frame_ts]. rewrite Hc.
    cbn [fst snd].
    destruct (default (false, None) (head (shots _))) as [[] [fr|]];
      try destruct (imencode fr _); cbn -[device];
      rewrite ?device_emit, device_set_device_ne by done; reflexivity.
  - unfold cap_read, now_iso. cbn [fst snd clock emit _cap set_last_frame_ts]. rewrite Hc.
    cbn [fst snd].
    destruct (default (false, None) (head (shots _))) as [[] [fr|]];
      try destruct (imencode fr _); cbn -[device];
      rewrite ?device_emit, device_set_device_ne by done; reflexivity.
Qed.

Lemma forallb_tail {A} (P : A → bool) l : forallb P l = true → forallb P (tail l) = true.
Proof. destruct l; cbn; [done|]. by intros [_ ?]%andb_true_iff. Qed.

(** Over tapes whose frames encode to something, a [read()] returns no
    empty payload, keeps the quality and leaves such tapes. *)
Lemma read_sound q d w r d' w' :
  read (d, w) = (r, (d', w')) →
  jpeg_quality d = q →
  (∀ i, forallb (service.jpeg_nonempty q) (shots (device w i)) = true) →
  jpeg_quality d' = q
  ∧ (∀ i, forallb (service.jpeg_nonempty q) (shots (device w' i)) = true)
  ∧ ∀ m, r = Ok (Some m) → data m ≠ [].
Proof.
  intros Hr Hq Ht. destruct (_cap d) as [c|] eqn:Hc.
  - pose proof (λ j, read_other d w c j Hc) as Ho.
    destruct (read_shot d w c Hc) as (d1 & w1 & Hr1 & Hd1 & Hs & _).
    rewrite Hr1 in Hr, Ho. cbn [snd] in Ho. injection Hr as <- <- <-.
    split; [by subst d1|]. split.
    + intros i. destruct (decide (i = c)) as [->|Hne].
      * rewrite Hs. apply forallb_tail, Ht.
      * rewrite (Ho i Hne). apply Ht.
    + intros m. specialize (Ht c). rewrite Hq.
      destruct (shots (device w c)) as [|shot rest]; cbn; [discriminate|].
      cbn in Ht. apply andb_true_iff in Ht as [Hs1 _]. unfold id.
      destruct shot as [[] [frame|]]; cbn in Hs1 |- *; try discriminate.
      destruct (imencode frame q) as [[|b buf]|]; try discriminate.
      intros [= <-]. discriminate.
  - rewrite (read_unopened (d, w) Hc) in Hr. injection Hr as <- <- <-.
    split; [done|]. split; [done|]. discriminate.
Qed.

Lemma open_sound q d w i :
  device_index d = Some i →
  (∀ j, forallb (service.jpeg_nonempty q) (shots (device w j)) = true) →
  jpeg_quality (fst (snd (open (d, w)))) = jpeg_quality d
  ∧ ∀ j, forallb (service.jpeg_nonempty q)
           (shots (device (snd (snd (open (d, w)))) j)) = true.
Proof.
  intros Hi Ht. destruct (open_explicit_run d w i Hi) as (w' & H & _ & _ & Hs & Ho).
  assert (jpeg_quality (fst (snd (open (d, w)))) = jpeg_quality d
          ∧ snd (snd (open (d, w))) = w') as [Hq ->].
  { destruct (head (attach (device w i))) as [[]|];
      [destruct (fits (width d) && fits (height d) && fits (fps d));
       [destruct (head (shots (device w i))) as [[[] ?]|]|]|..];
      destruct H as [-> _]; done. }
  split; [exact Hq|]. intros j. destruct (decide (j = i)) as [->|Hne].
  - rewrite Hs. repeat case_match; first [apply forallb_tail, Ht|apply Ht].
  - rewrite (Ho j Hne). apply Ht.
Qed.

Lemma close_sound q d w :
  (∀ j, forallb (service.jpeg_nonempty q) (shots (device w j)) = true) →
  jpeg_quality (fst (snd (close (d, w)))) = jpeg_quality d
  ∧ ∀ j, forallb (service.jpeg_nonempty q)
           (shots (device (snd (snd (close (d, w)))) j)) = true.
Proof.
  intros Ht. destruct (close_run d w) as (w' & -> & _ & Hd & _).
  split; [done|]. intros j. cbn. unfold device. rewrite Hd. apply Ht.
Qed.

End driver_facts.

(* ===================================================================== *)
(** ** The HTTP surface *)
(* ===================================================================== *)

Module service_facts.
Import api service.

(** [GET /camera/frame], case by case: 409 when the grabber is disabled;
    404 when it is enabled and the published payload is absent or empty;
    and otherwise the published bytes as [image/jpeg]. *)
Lemma camera_frame_cases (s : Sys) :
  camera_frame s =
    if enabled (grabber s) then
      match latest_frame (grabber s) with
      | Some (b :: p) => Response (b :: p) "image/jpeg"
      | Some [] | None => HTTPException 404 (Text "No frame available yet")
      end
    else HTTPException 409 (Text "Camera disabled").
Proof.
  unfold camera_frame, get_latest_jpeg.
  destruct (enabled (grabber s)); [|reflexivity].
  destruct (latest_frame (grabber s)) as [[|b p]|]; reflexivity.
Qed.

Lemma encode_app a b : encode (a ++ b)%string = encode a ++ encode b.
Proof.
  unfold encode, list_byte_of_string.
  induction a as [|c a IH]; [reflexivity|].
  change (String c a +:+ b) with (String c (a +:+ b)).
  cbn [list_ascii_of_string map app]. f_equal. exact IH.
Qed.

Lemma int_of_str_str n : int_of_str (str n) = Some n.
Proof.
  unfold int_of_str, str. rewrite NilZero.usu.
  - cbn. f_equal. apply DecimalN.Unsigned.of_to.
  - destruct n; cbn; [discriminate|].
    intros H. pose proof (DecimalPos.Unsigned.to_uint_nonnil p). contradiction.
Qed.

(** The byte string [gen()] builds is the part the specification
    describes, whatever the text of the length. *)
Lemma chunk_shape (digits : string) (p : bytes) :
  encode ("--" ++ boundary ++ CRLF ++ "Content-Type: image/jpeg" ++ CRLF
          ++ "Content-Length: " ++ digits ++ CRLF ++ CRLF)%string
  ++ p ++ encode CRLF
  = encode ("--" ++ "frame" ++ CRLF)%string
    ++ encode ("Content-Type: " ++ "image/jpeg" ++ CRLF)%string
    ++ encode ("Content-Length: " ++ digits ++ CRLF)%string
    ++ encode CRLF ++ p ++ encode CRLF.
Proof.
  rewrite !encode_app. unfold boundary, CRLF. cbn.
  rewrite <- !app_assoc. reflexivity.
Qed.

(** *** The length numeral *)

Lemma decimal_from_acc u : ∀ acc : positive,
  decimal_from (N.pos acc) (encode (NilEmpty.string_of_uint u))
  = Some (N.pos (Pos.of_uint_acc u acc)).
Proof.
  induction u as [|u IH|u IH|u IH|u IH|u IH|u IH|u IH|u IH|u IH|u IH]; intros acc;
    [reflexivity|..];
    cbn [NilEmpty.string_of_uint Pos.of_uint_acc];
    change (encode (String ?c ?s)) with (byte_of_ascii c :: encode s);
    cbn [decimal_from];
    match goal with |- context [digit ?b] =>
      let v := eval vm_compute in (digit b) in change (digit b) with v end;
    cbv iota;
    (etrans; [|apply IH]); f_equal; lia.
Qed.

Lemma decimal_from_zero u :
  decimal_from 0 (encode (NilEmpty.string_of_uint u)) = Some (Pos.of_uint u).
Proof.
  induction u as [|u IH|u IH|u IH|u IH|u IH|u IH|u IH|u IH|u IH|u IH];
    [reflexivity|exact IH|..];
    cbn [NilEmpty.string_of_uint Pos.of_uint];
    change (encode (String ?c ?s)) with (byte_of_ascii c :: encode s);
    cbn [decimal_from];
    match goal with |- context [digit ?b] =>
      let v := eval vm_compute in (digit b) in change (digit b) with v end;
    cbv iota;
    (etrans; [|apply decimal_from_acc]); reflexivity.
Qed.

(** A normalised numeral is zero or starts with another digit. *)
Lemma unorm_head u :
  Decimal.unorm u = Decimal.D0 Decimal.Nil
  ∨ ∀ l, Decimal.unorm u ≠ Decimal.D0 l.
Proof.
  induction u; try (right; discriminate); [left; reflexivity|].
  rewrite DecimalFacts.unorm_D0. exact IHu.
Qed.

(** The numeral [str] writes denotes the number it was given and has no
    leading zero. *)
Lemma decimal_str n : decimal (encode (str n)) = Some n.
Proof.
  unfold str.
  assert (N.to_uint n ≠ Decimal.Nil) as Hnil.
  { destruct n; cbn; [discriminate|apply DecimalPos.Unsigned.to_uint_nonnil]. }
  assert (decimal_from 0 (encode (NilZero.string_of_uint (N.to_uint n))) = Some n) as Hv.
  { destruct (N.to_uint n) eqn:E; try done;
      change (NilZero.string_of_uint ?u) with (NilEmpty.string_of_uint u);
      rewrite decimal_from_zero, <- E; f_equal; apply DecimalN.Unsigned.of_to. }
  pose proof (DecimalN.Unsigned.to_of (N.to_uint n)) as Hn.
  rewrite DecimalN.Unsigned.of_to in Hn.
  destruct (unorm_head (N.to_uint n)) as [Hz|Hz]; rewrite <- Hn in Hz.
  - rewrite Hz in *. exact Hv.
  - destruct (N.to_uint n) as [|u|u|u|u|u|u|u|u|u|u] eqn:E; try done;
      [exfalso; by apply (Hz u)|..];
      revert Hv;
      change (NilZero.string_of_uint ?u) with (NilEmpty.string_of_uint u);
      cbn [NilEmpty.string_of_uint];
      change (encode (String ?c ?s)) with (byte_of_ascii c :: encode s);
      cbn [byte_of_ascii]; unfold decimal;
      destruct (encode (NilEmpty.string_of_uint u)); done.
Qed.

(** The byte string [gen()] builds, byte by byte. *)
Lemma chunk_bytes (digits : string) (p : bytes) :
  encode ("--" ++ boundary ++ CRLF ++ "Content-Type: image/jpeg" ++ CRLF
          ++ "Content-Length: " ++ digits ++ CRLF ++ CRLF)%string
  ++ p ++ encode CRLF
  = part_bytes (encode digits) p.
Proof.
  rewrite !encode_app. unfold boundary, CRLF, part_bytes, part_head. cbn.
  rewrite <- !app_assoc. reflexivity.
Qed.

(** C8.  Whenever the generator of [GET /camera/stream] yields, the grabber
    is enabled, a non-empty payload is published, and the chunk is the
    multipart part of the specification for the boundary [frame], the type
    [image/jpeg] and that payload.  Byte by byte it is the ASCII codes of
    [--frame\r\nContent-Type: image/jpeg\r\nContent-Length: ], a decimal
    numeral without leading zero that denotes the length of the payload,
    [\r\n\r\n], the payload and [\r\n]; nothing else changes. *)
Theorem stream_chunk_format (s s' : Sys) (chunk : bytes) :
  gen_iter s = (Yield chunk, s') →
  ∃ p, get_latest_jpeg s = Some p
       ∧ p ≠ []
       ∧ enabled (grabber s) = true
       ∧ chunk = multipart_chunk "frame" "image/jpeg" p
       ∧ chunk = encode ("--frame" ++ CRLF ++ "Content-Type: image/jpeg" ++ CRLF
                         ++ "Content-Length: " ++ str (len p) ++ CRLF ++ CRLF)%string
                 ++ p ++ encode CRLF
       ∧ int_of_str (str (len p)) = Some (N.of_nat (length p))
       ∧ (∃ digits, chunk = part_head ++ digits ++ [x0d; x0a; x0d; x0a] ++ p ++ [x0d; x0a]
                    ∧ decimal digits = Some (N.of_nat (length p)))
       ∧ s' = s.
Proof.
  unfold gen_iter. destruct (enabled (grabber s)); cbn [negb]; [|discriminate].
  destruct (get_latest_jpeg s) as [[|b p]|] eqn:E; cbn [truthy]; try discriminate.
  intros [= <- <-]. exists (b :: p).
  split; [reflexivity|]. split; [discriminate|]. split; [reflexivity|].
  split; [exact (chunk_shape (str (len (b :: p))) (b :: p))|].
  split; [reflexivity|]. split; [apply int_of_str_str|]. split; [|reflexivity].
  exists (encode (str (len (b :: p)))).
  split; [exact (chunk_bytes (str (len (b :: p))) (b :: p))|apply decimal_str].
Qed.

End service_facts.

(* ===================================================================== *)
(** ** The frame grabber *)
(* ===================================================================== *)

Module grabber_facts.
Import api service.

#[local] Arguments usb_camera.open : simpl never.
#[local] Arguments usb_camera.read : simpl never.
#[local] Arguments usb_camera.close : simpl never.
#[local] Arguments usb_camera.__init__ : simpl never.
#[local] Arguments sleep : simpl never.
#[local] Arguments wait : simpl never.

(** *** What the building blocks leave untouched *)

Lemma control_eq s s' :
  control s' = control s →
  enabled (grabber s') = enabled (grabber s)
  ∧ thread (grabber s') = thread (grabber s)
  ∧ stop_evt (grabber s') = stop_evt (grabber s)
  ∧ latest_frame (grabber s') = latest_frame (grabber s)
  ∧ latest_meta (grabber s') = latest_meta (grabber s)
  ∧ running (grabber s') = running (grabber s)
  ∧ threads s' = threads s.
Proof. unfold control. intros [= -> -> -> -> -> -> ->]. done. Qed.

Lemma on_driver_control {A} (c : Eff usb_camera.St A) s :
  control (snd (on_driver c s)) = control s.
Proof.
  unfold on_driver. destruct (driver (grabber s)) as [d|]; [|reflexivity].
  destruct (c (d, env s)) as [r [d' w']]. reflexivity.
Qed.

Lemma in_world_control {A} (c : Eff World A) s :
  control (snd (in_world c s)) = control s.
Proof. unfold in_world, zoom. destruct (c (env s)). reflexivity. Qed.

Lemma close_driver_spec s :
  ∃ s', _close_driver s = (Ok tt, s') ∧ control s' = control s
        ∧ driver (grabber s') = None.
Proof.
  unfold _close_driver. run_sys.
  destruct (driver (grabber s)) as [d|] eqn:Ed.
  - unfold on_driver. rewrite Ed.
    destruct (driver_facts.close_cap (d, env s)) as ([d' w'] & -> & _).
    eexists. split; [reflexivity|]. split; reflexivity.
  - eexists. split; [reflexivity|]. split; reflexivity.
Qed.

(** [_open_driver]: a constructor that raises leaves everything as it
    was; otherwise the new driver replaces the old one, which is let go,
    and is opened. *)
Lemma open_driver_spec cfg s :
  _open_driver cfg s
  = match usb_camera.__init__ (Some (device_index (grabber s))) (WIDTH cfg) (HEIGHT cfg)
            (FPS cfg) (JPEG_QUALITY cfg) CAP_DSHOW with
    | Ok d =>
        let '(r, (d', w')) := usb_camera.open (d, disposed s) in
        (r, set_env w' (on_grabber (set_driver (Some d')) s))
    | Raise e => (Raise e, s)
    end.
Proof.
  unfold _open_driver, disposed. run_sys.
  destruct (usb_camera.__init__ _ _ _ _ _ _) as [d|e]; [|reflexivity].
  destruct (driver (grabber s)) as [old|]; cbn.
  - unfold usb_camera.dispose, on_driver.
    destruct (usb_camera._cap old); cbn;
      destruct (usb_camera.open _) as [r [d' w']]; reflexivity.
  - unfold on_driver. cbn. destruct (usb_camera.open _) as [r [d' w']]. reflexivity.
Qed.

Lemma disposed_device s i : device (disposed s) i = device (env s) i.
Proof.
  unfold disposed, usb_camera.dispose. destruct (driver (grabber s)) as [old|]; [|done].
  by destruct (usb_camera._cap old).
Qed.

Lemma open_driver_control cfg s : control (snd (_open_driver cfg s)) = control s.
Proof.
  rewrite open_driver_spec.
  destruct (usb_camera.__init__ _ _ _ _ _ _) as [d|e]; [|reflexivity].
  destruct (usb_camera.open _) as [r [d' w']]. reflexivity.
Qed.

(** *** One step of a loop *)

Lemma loop_step_spec t s :
  ((threads s !! t = None ∨ threads s !! t = Some Exited) ∧ loop_step t s = s)
  ∨ ∃ pc pc',
      threads s !! t = Some pc ∧ is_alive pc = true
      ∧ threads (loop_step t s) = <[t := pc']> (threads s)
      ∧ enabled (grabber (loop_step t s)) = enabled (grabber s)
      ∧ thread (grabber (loop_step t s)) = thread (grabber s)
      ∧ stop_evt (grabber (loop_step t s)) = stop_evt (grabber s)
      ∧ pc' ≠ AtEntry
      ∧ running (grabber (loop_step t s))
        = match pc, pc' with
          | AtEntry, AtWhile => true
          | AtEntry, _ => running (grabber s)
          | _, Exited => false
          | _, _ => running (grabber s)
          end
      ∧ (latest_frame (grabber (loop_step t s)), latest_meta (grabber (loop_step t s)))
        = match pc with
          | AtPublish m => (Some (data m), meta m)
          | _ => (latest_frame (grabber s), latest_meta (grabber s))
          end.
Proof.
  unfold loop_step.
  destruct (threads s !! t) as [pc|] eqn:Et; [|left; eauto].
  destruct pc; [| | | | |left; eauto]; right.
  - destruct (driver (grabber s)).
    + exists AtEntry, AtWhile. repeat split; done.
    + exists AtEntry, Exited. repeat split; done.
  - destruct (stop_evt (grabber s)) eqn:Ev.
    + exists AtWhile, Exited. cbn. rewrite Ev. repeat split; done.
    + exists AtWhile, AtRead. cbn. rewrite Ev. repeat split; done.
  - pose proof (on_driver_control usb_camera.read s) as Hc.
    destruct (on_driver usb_camera.read s) as [[[m|]|e] s1]; cbn [snd] in Hc;
      unfold control in Hc; simplify_eq.
    + exists AtRead, (AtPublish m). cbn. repeat split; try done; congruence.
    + exists AtRead, AtSleep. cbn. repeat split; try done; congruence.
    + exists AtRead, Exited. cbn. repeat split; try done; congruence.
  - pose proof (in_world_control (sleep (5 # 100)) s) as Hc.
    destruct (in_world (sleep (5 # 100)) s) as [r s1]; cbn [snd] in *.
    unfold control in Hc; simplify_eq.
    exists AtSleep, AtWhile. cbn. repeat split; try done; congruence.
  - exists (AtPublish m), AtWhile. cbn. repeat split; done.
Qed.

(** *** Orphans *)

Lemma no_orphan_spec s :
  no_orphan s = true ↔
  ∀ t pc, threads s !! t = Some pc → is_alive pc = true → thread (grabber s) = Some t.
Proof.
  unfold no_orphan. rewrite forallb_forall. split.
  - intros H t pc Ht Ha.
    assert (In (t, pc) (imap pair (threads s))) as Hin
      by (apply list_elem_of_In, elem_of_lookup_imap; eauto).
    specialize (H _ Hin). cbn in H. rewrite Ha in H. cbn in H.
    by apply bool_decide_eq_true in H.
  - intros H [t pc] Hin.
    apply list_elem_of_In, elem_of_lookup_imap in Hin as (i & x & Heq & Hl).
    injection Heq as -> ->.
    destruct (is_alive x) eqn:Ha; [|reflexivity]. cbn.
    apply bool_decide_eq_true. eauto.
Qed.

Lemma dead_pool s :
  no_orphan s = true → thread_alive s = false → all_exited s.
Proof.
  intros Hn Ht t pc Hl. destruct (is_alive pc) eqn:Ha; [|reflexivity].
  pose proof (proj1 (no_orphan_spec s) Hn t pc Hl Ha) as Hth.
  unfold thread_alive in Ht. rewrite Hth, Hl in Ht. congruence.
Qed.

Lemma exited_no_orphan s : all_exited s → no_orphan s = true.
Proof.
  intros H. apply no_orphan_spec. intros t pc Hl Ha.
  rewrite (H t pc Hl) in Ha. discriminate.
Qed.

Lemma loop_step_exited t s : all_exited s → loop_step t s = s.
Proof.
  intros H. destruct (loop_step_spec t s) as [[_ E]|(pc & pc' & Hl & Ha & _)]; [exact E|].
  rewrite (H t pc Hl) in Ha. discriminate.
Qed.

Lemma loop_step_no_orphan t s : no_orphan s = true → no_orphan (loop_step t s) = true.
Proof.
  intros Hn. destruct (loop_step_spec t s)
    as [[_ ->]|(pc & pc' & Hl & Ha & Hth & _ & Hthr & _)]; [exact Hn|].
  rewrite no_orphan_spec in Hn |- *. intros t1 pc1 Hl1 Ha1. rewrite Hthr.
  destruct (decide (t1 = t)) as [->|Hne]; [eauto|].
  rewrite Hth, list_lookup_insert_ne in Hl1 by done. eauto.
Qed.

Lemma loop_step_running_sound t s :
  no_orphan s = true → running_sound s → running_sound (loop_step t s).
Proof.
  intros Hn Hs. destruct (loop_step_spec t s)
    as [[_ ->]|(pc & pc' & Hl & Ha & Hth & _ & Hthr & _ & Hne & Hr & _)]; [exact Hs|].
  pose proof (proj1 (no_orphan_spec s) Hn t pc Hl Ha) as Ht.
  assert (threads (loop_step t s) !! t = Some pc') as Hl'.
  { rewrite Hth. apply list_lookup_insert_eq. eapply lookup_lt_Some, Hl. }
  intros Hrun. rewrite Hr in Hrun. exists t, pc'. rewrite Hthr.
  assert (running (grabber s) = true → pc ≠ AtEntry) as Hold.
  { intros Hr0. destruct (Hs Hr0) as (t0 & pc0 & Ht0 & Hl0 & Hne0 & _).
    rewrite Ht in Ht0. injection Ht0 as <-. rewrite Hl in Hl0. by injection Hl0 as <-. }
  repeat split; try done.
  destruct pc, pc'; try done; exfalso; by apply Hold.
Qed.

(** *** [join], [stop] and [start] *)

Lemma join_steps_ind (P : Sys → Prop) :
  (∀ t s, P s → P (loop_step t s)) →
  (∀ w s, P s → P (set_env w s)) →
  ∀ b t s, P s → P (join_steps t b s).
Proof.
  intros Hstep Henv. induction b as [|b IH]; intros t s Hs; cbn.
  - destruct (threads s !! t) as [pc|]; [|done]. destruct (is_alive pc); [|done].
    by apply Henv.
  - destruct (threads s !! t) as [pc|]; [|done]. destruct (is_alive pc); [|done].
    by apply IH, Hstep.
Qed.

Lemma join_steps_frame t b s :
  enabled (grabber (join_steps t b s)) = enabled (grabber s)
  ∧ thread (grabber (join_steps t b s)) = thread (grabber s)
  ∧ stop_evt (grabber (join_steps t b s)) = stop_evt (grabber s)
  ∧ length (threads (join_steps t b s)) = length (threads s).
Proof.
  apply (join_steps_ind (λ s', enabled (grabber s') = enabled (grabber s)
                               ∧ thread (grabber s') = thread (grabber s)
                               ∧ stop_evt (grabber s') = stop_evt (grabber s)
                               ∧ length (threads s') = length (threads s))); [| |done].
  - intros t0 s0 (H1 & H2 & H3 & H4).
    destruct (loop_step_spec t0 s0)
      as [[_ ->]|(pc & pc' & _ & _ & Hth & He & Ht & Hv & _)]; [done|].
    rewrite He, Ht, Hv, Hth, length_insert. done.
  - intros w s0 H. exact H.
Qed.

Lemma join_steps_pure t b s :
  no_orphan s = true → running_sound s →
  no_orphan (join_steps t b s) = true ∧ running_sound (join_steps t b s).
Proof.
  intros Hn Hs.
  apply (join_steps_ind (λ s', no_orphan s' = true ∧ running_sound s')); [| |done].
  - intros t0 s0 [H1 H2]. split; [by apply loop_step_no_orphan|by apply loop_step_running_sound].
  - intros w s0 H. exact H.
Qed.

Lemma stop_spec b s :
  ∃ s4, _close_driver (on_grabber (set_thread None) (joined b s)) = (Ok tt, s4)
        ∧ stop b s = (Ok tt, on_grabber (set_latest None ∅) s4)
        ∧ control s4 = control (on_grabber (set_thread None) (joined b s))
        ∧ driver (grabber s4) = None.
Proof.
  destruct (close_driver_spec (on_grabber (set_thread None) (joined b s)))
    as (s4 & Hc & Hctl & Hd).
  exists s4. split; [exact Hc|]. split; [|done].
  unfold stop. run_sys. unfold joined in Hc.
  change (thread (grabber (on_grabber (set_stop_evt true) s))) with (thread (grabber s)).
  destruct (thread (grabber s)) as [t|]; rewrite Hc; reflexivity.
Qed.

(** What [stop] leaves behind, in terms of the state at the return of its
    [join]. *)
Lemma stop_frame b s :
  let s' := snd (stop b s) in
  fst (stop b s) = Ok tt
  ∧ threads s' = threads (joined b s)
  ∧ running (grabber s') = running (grabber (joined b s))
  ∧ enabled (grabber s') = enabled (grabber s)
  ∧ stop_evt (grabber s') = true
  ∧ thread (grabber s') = None
  ∧ driver (grabber s') = None
  ∧ latest_frame (grabber s') = None
  ∧ latest_meta (grabber s') = ∅.
Proof.
  destruct (stop_spec b s) as (s4 & _ & -> & Hctl & Hd). cbn [fst snd].
  unfold control in Hctl. cbn in Hctl. simplify_eq.
  assert (enabled (grabber (joined b s)) = enabled (grabber s)
          ∧ stop_evt (grabber (joined b s)) = true) as [He Hv].
  { unfold joined. destruct (thread (grabber s)) as [t|]; [|done].
    destruct (join_steps_frame t b (on_grabber (set_stop_evt true) s)) as (-> & _ & -> & _).
    done. }
  cbn. repeat split; congruence.
Qed.

Lemma start_spec cfg s :
  (thread_alive s = true ∧ start cfg s = (Ok tt, s))
  ∨ (thread_alive s = false
     ∧ ∃ r s1,
         _open_driver cfg (on_grabber (set_stop_evt false) s) = (r, s1)
         ∧ control s1 = control (on_grabber (set_stop_evt false) s)
         ∧ start cfg s
           = match r with
             | Ok _ => (Ok tt, set_threads (threads s1 ++ [AtEntry])
                                 (on_grabber (set_thread (Some (length (threads s1)))) s1))
             | Raise e => (Raise e, s1)
             end).
Proof.
  unfold start. run_sys. destruct (thread_alive s) eqn:Ea; [left; done|right].
  split; [done|].
  pose proof (open_driver_control cfg (on_grabber (set_stop_evt false) s)) as Hc.
  destruct (_open_driver cfg (on_grabber (set_stop_evt false) s)) as [r s1].
  exists r, s1. split; [done|]. split; [exact Hc|]. destruct r; reflexivity.
Qed.

(** What [start] leaves behind. *)
Lemma start_frame cfg s :
  let s' := snd (start cfg s) in
  enabled (grabber s') = enabled (grabber s)
  ∧ running (grabber s') = running (grabber s)
  ∧ latest_frame (grabber s') = latest_frame (grabber s)
  ∧ latest_meta (grabber s') = latest_meta (grabber s)
  ∧ (threads s' = threads s ∧ thread (grabber s') = thread (grabber s)
     ∨ thread_alive s = false ∧ fst (start cfg s) = Ok tt
       ∧ threads s' = threads s ++ [AtEntry]
       ∧ thread (grabber s') = Some (length (threads s))).
Proof.
  destruct (start_spec cfg s) as [[_ ->]|(Ha & r & s1 & _ & Hc & ->)]; cbn [snd].
  { repeat split; try done. left. done. }
  unfold control in Hc. cbn in Hc. simplify_eq.
  destruct r; cbn; (repeat split; [congruence..|]).
  - right. repeat split; congruence.
  - left. split; congruence.
Qed.

Lemma start_running_sound cfg s :
  no_orphan s = true → running_sound s →
  no_orphan (snd (start cfg s)) = true ∧ running_sound (snd (start cfg s)).
Proof.
  intros Hn Hs.
  destruct (start_frame cfg s) as (_ & Hr & _ & _ & [[Hth Ht]|(Ha & _ & Hth & Ht)]).
  - split.
    + rewrite no_orphan_spec in Hn |- *. rewrite Hth, Ht. exact Hn.
    + unfold running_sound. rewrite Hr, Hth, Ht. exact Hs.
  - pose proof (dead_pool s Hn Ha) as Hdead. split.
    + apply no_orphan_spec. intros t pc Hl Hal. rewrite Ht. rewrite Hth in Hl.
      apply lookup_app_Some in Hl as [Hl|[Hlen Hl]].
      * rewrite (Hdead t pc Hl) in Hal. discriminate.
      * apply list_lookup_singleton_Some in Hl as [Hi _]. f_equal. lia.
    + intros Hrun. rewrite Hr in Hrun. destruct (Hs Hrun) as (t & pc & _ & Hl & _ & Hal).
      rewrite (Hdead t pc Hl) in Hal. discriminate.
Qed.

(** A [start] on a grabber that references no loop cannot hide an orphan. *)
Lemma start_orphan_back cfg s :
  thread (grabber s) = None → no_orphan (snd (start cfg s)) = true → no_orphan s = true.
Proof.
  intros Hnone Hn. apply exited_no_orphan. intros t pc Hl.
  destruct (is_alive pc) eqn:Hal; [exfalso|reflexivity].
  rewrite no_orphan_spec in Hn.
  destruct (start_frame cfg s) as (_ & _ & _ & _ & [[Hth Ht]|(_ & _ & Hth & Ht)]).
  - rewrite <- Hth in Hl. specialize (Hn t pc Hl Hal). congruence.
  - assert (threads (snd (start cfg s)) !! t = Some pc) as Hl'
      by (rewrite Hth; apply lookup_app_l_Some, Hl).
    specialize (Hn t pc Hl' Hal). rewrite Ht in Hn. injection Hn as Hn.
    apply lookup_lt_Some in Hl. lia.
Qed.

Lemma joined_pure b s :
  no_orphan s = true → running_sound s →
  no_orphan (joined b s) = true ∧ running_sound (joined b s).
Proof.
  intros Hn Hs. unfold joined. destruct (thread (grabber s)); [|done].
  by apply join_steps_pure.
Qed.

(** A [stop] whose [join] saw the loop exit leaves no loop alive and
    [running] cleared. *)
Lemma stop_in_time b s :
  no_orphan s = true → running_sound s → no_orphan (snd (stop b s)) = true →
  all_exited (snd (stop b s)) ∧ running (grabber (snd (stop b s))) = false.
Proof.
  intros Hn Hs Hn'.
  destruct (stop_frame b s) as (_ & Hth & Hr & _ & _ & Ht & _).
  assert (all_exited (snd (stop b s))) as Hdead.
  { apply dead_pool; [done|]. unfold thread_alive. by rewrite Ht. }
  split; [exact Hdead|].
  destruct (joined_pure b s Hn Hs) as [_ Hs2].
  rewrite Hr.
  destruct (running (grabber (joined b s))) eqn:Hrun; [exfalso|reflexivity].
  destruct (Hs2 Hrun) as (t & pc & _ & Hl & _ & Hal).
  rewrite <- Hth in Hl. rewrite (Hdead t pc Hl) in Hal. discriminate.
Qed.

(** *** The switch and the requests *)

Lemma set_enabled_spec cfg flag b s :
  set_enabled cfg flag b s
  = if Bool.eqb flag (enabled (grabber s)) then (Ok tt, s)
    else if flag then start cfg (on_grabber (set_enabled_field true) s)
         else stop b (on_grabber (set_enabled_field false) s).
Proof.
  unfold set_enabled. run_sys.
  destruct (Bool.eqb flag (enabled (grabber s))); [reflexivity|].
  destruct flag; reflexivity.
Qed.

Lemma set_enabled_result cfg flag b s :
  enabled (grabber (snd (set_enabled cfg flag b s))) = flag.
Proof.
  rewrite set_enabled_spec.
  destruct (Bool.eqb flag (enabled (grabber s))) eqn:E.
  - apply Bool.eqb_prop in E. done.
  - destruct flag.
    + by destruct (start_frame cfg (on_grabber (set_enabled_field true) s)) as (-> & _).
    + by destruct (stop_frame b (on_grabber (set_enabled_field false) s))
        as (_ & _ & _ & -> & _).
Qed.

Lemma camera_reopen_spec cfg b s :
  camera_reopen cfg b s
  = if enabled (grabber s) then
      match start cfg (snd (in_world (sleep (2 # 10)) (snd (stop b s)))) with
      | (Ok _, s') => (OkJSON, s')
      | (Raise e, s') => (HTTPException 500 (OfExn e), s')
      end
    else (HTTPException 409 (Text "Camera disabled"), s).
Proof.
  unfold camera_reopen. destruct (enabled (grabber s)); [|reflexivity]. cbn [negb].
  destruct (stop_frame b s) as (Hok & _).
  cbv beta iota zeta delta [eff_bind].
  destruct (stop b s) as [r s1]. cbn in Hok. subst r. cbn [snd].
  destruct (in_world (sleep (2 # 10)) s1) as [[u|e] s2] eqn:E; [reflexivity|].
  unfold in_world, zoom, sleep in E. discriminate E.
Qed.


Lemma disabled_exited s :
  no_orphan s = true → disabled_clean s → enabled (grabber s) = false → all_exited s.
Proof.
  intros Hn Hd He. apply dead_pool; [done|].
  destruct (Hd He) as (Ht & _). unfold thread_alive. by rewrite Ht.
Qed.

(** A [stop] in time, on a grabber whose switch was just turned. *)
Lemma stop_steady b s :
  no_orphan s = true → running_sound s → no_orphan (snd (stop b s)) = true →
  steady (snd (stop b s)).
Proof.
  intros Hn Hs Hn'. destruct (stop_in_time b s Hn Hs Hn') as [_ Hrun].
  destruct (stop_frame b s) as (_ & _ & _ & _ & _ & Ht & _ & Hf & Hm).
  split; [intros H; congruence | intros _; done].
Qed.

Lemma start_steady cfg s :
  enabled (grabber s) = true → no_orphan s = true → running_sound s →
  steady (snd (start cfg s)).
Proof.
  intros He Hn Hs. destruct (start_running_sound cfg s Hn Hs) as [_ Hs'].
  split; [exact Hs'|]. intros He'.
  destruct (start_frame cfg s) as (Hen & _). congruence.
Qed.

(** Each action the service performs keeps a steady state steady, as long
    as it leaves no orphan. *)
Lemma perform_steady cfg a s :
  served a = true → no_orphan s = true → no_orphan (perform cfg a s) = true →
  steady s → steady (perform cfg a s).
Proof.
  intros Ha Hn Hn' [Hs Hd]. destruct a as [t| | | |p b|b]; try discriminate; cbn in *.
  - split; [by apply loop_step_running_sound|]. intros He.
    destruct (loop_step_spec t s) as [[_ E]|(pc & pc' & _ & _ & _ & Hen & _)].
    + rewrite E in *. by apply Hd.
    + rewrite Hen in He. rewrite loop_step_exited by by apply disabled_exited.
      by apply Hd.
  - unfold camera_enable in *. destruct (p !! "enabled") as [flag|]; [|done].
    assert (snd (let (r, s') := set_enabled cfg flag b s in
                 match r with
                 | Ok _ => (EnabledJSON (enabled (grabber s')), s')
                 | Raise e => (HTTPException 500 (OfExn e), s')
                 end) = snd (set_enabled cfg flag b s)) as E
      by (destruct (set_enabled cfg flag b s) as [[] ?]; reflexivity).
    rewrite E in *. clear E. rewrite set_enabled_spec in *.
    destruct (Bool.eqb flag (enabled (grabber s))); [done|]. destruct flag.
    + by apply start_steady.
    + by apply stop_steady.
  - rewrite camera_reopen_spec in *.
    destruct (enabled (grabber s)) eqn:He; [|done].
    set (s1 := snd (stop b s)) in *.
    set (s2 := snd (in_world (sleep (2 # 10)) s1)) in *.
    assert (snd (let (r, s') := start cfg s2 in
                 match r with
                 | Ok _ => (OkJSON, s')
                 | Raise e => (HTTPException 500 (OfExn e), s')
                 end) = snd (start cfg s2)) as E
      by (destruct (start cfg s2) as [[] ?]; reflexivity).
    rewrite E in *. clear E.
    pose proof (in_world_control (sleep (2 # 10)) s1) as Hc. fold s2 in Hc.
    apply control_eq in Hc as (Hc1 & Hc2 & _ & _ & _ & Hc6 & Hc7).
    destruct (stop_frame b s) as (_ & _ & _ & Hen & _ & Ht & _). fold s1 in Hen, Ht.
    assert (no_orphan s2 = true) as Hn2.
    { eapply start_orphan_back; [|exact Hn']. congruence. }
    assert (no_orphan s1 = true) as Hn1.
    { rewrite no_orphan_spec in Hn2 |- *. intros t pc Hl Hal.
      rewrite <- Hc7 in Hl. rewrite <- Hc2. eauto. }
    destruct (stop_steady b s Hn Hs Hn1) as [Hs1 _]. fold s1 in Hs1.
    assert (running_sound s2) as Hs2.
    { unfold running_sound in *. rewrite Hc6, Hc2, Hc7. exact Hs1. }
    apply start_steady; [congruence|done..].
Qed.

Lemma run_steady cfg acts : ∀ s,
  forallb served acts = true → joins_in_time cfg acts s = true → steady s →
  steady (run cfg acts s) ∧ no_orphan (run cfg acts s) = true.
Proof.
  induction acts as [|a acts IH]; intros s Hsv Hj Hst; cbn in *.
  - split; [done|]. by rewrite andb_true_r in Hj.
  - apply andb_true_iff in Hsv as [Ha Hsv]. apply andb_true_iff in Hj as [Hn Hj].
    apply IH; [done..|]. apply perform_steady; [done..| |done].
    destruct acts; cbn in Hj; by apply andb_true_iff in Hj as [? _].
Qed.

Lemma boot_steady cfg w : steady (boot cfg w) ∧ no_orphan (boot cfg w) = true.
Proof.
  unfold boot.
  set (s0 := {| grabber := FrameGrabber__init__ cfg; threads := []; env := w |}).
  assert (running_sound s0) as Hs0 by (intros H; discriminate H).
  assert (no_orphan s0 = true) as Hn0 by reflexivity.
  destruct (enabled (grabber s0)) eqn:He.
  - assert (snd (try_except (start cfg) (λ _, eff_ret tt) s0) = snd (start cfg s0)) as ->.
    { unfold try_except, eff_ret. destruct (start cfg s0) as [[] ?]; reflexivity. }
    split; [by apply start_steady | by apply start_running_sound].
  - split; [|done]. split; [done|]. intros _. done.
Qed.

(** *** The switch and the published frame *)

(** C1, as stated, fails when a [join] returns on its timeout, the loop
    being held up in [driver.read()]: the switch is off and the loop that
    [stop()] could not wait for is still [running]. *)
Lemma disabled_yet_running :
  ¬ (∀ cfg w acts,
       forallb served acts = true →
       let s := run cfg acts (boot cfg w) in
       enabled (grabber s) = false →
       running (grabber s) = false ∧ latest_frame (grabber s) = None
       ∧ latest_meta (grabber s) = ∅).
Proof.
  intros H.
  destruct (H off_by_default one_camera
              [PutEnable (want true) 0; Tick 0; Tick 0; PutEnable (want false) 0]
              eq_refl eq_refl) as [Hr _].
  vm_compute in Hr. discriminate Hr.
Qed.


(** C1, amended.  As long as every [join] of the execution saw its loop
    exit, a disabled grabber is idle between the requests the service
    performs: [running] is false, nothing is published, no loop is
    referenced or alive, and so no step of a loop publishes anything.
    [set_enabled(false)] on an enabled grabber is [stop()] after the switch
    is turned. *)
Theorem disabled_is_idle (cfg : Config) (w : World) (acts : list Action) :
  forallb served acts = true →
  joins_in_time cfg acts (boot cfg w) = true →
  enabled (grabber (run cfg acts (boot cfg w))) = false →
  let s := run cfg acts (boot cfg w) in
  (running (grabber s) = false ∧ latest_frame (grabber s) = None
   ∧ latest_meta (grabber s) = ∅)
  ∧ (thread (grabber s) = None ∧ all_exited s ∧ ∀ t, loop_step t s = s)
  ∧ (∀ s0 b, enabled (grabber s0) = true →
             set_enabled cfg false b s0
             = stop b (on_grabber (set_enabled_field false) s0)).
Proof.
  intros Hsv Hj He s.
  destruct (boot_steady cfg w) as [Hst0 _].
  destruct (run_steady cfg acts _ Hsv Hj Hst0) as [[Hs Hd] Hn]. fold s in Hs, Hd, Hn.
  destruct (Hd He) as (Ht & Hf & Hm).
  pose proof (disabled_exited s Hn Hd He) as Hdead.
  split; [|split].
  - split; [|done]. destruct (running (grabber s)) eqn:Hr; [exfalso|reflexivity].
    destruct (Hs Hr) as (t & pc & Ht' & _). congruence.
  - split; [done|]. split; [done|]. intros t. by apply loop_step_exited.
  - intros s0 b He0. rewrite set_enabled_spec, He0. reflexivity.
Qed.

(** *** A failing [start] *)

(** What [_open_driver] answers is what the constructor raised or what
    [open()] answers on the new driver. *)
Lemma open_driver_eq cfg s :
  match usb_camera.__init__ (Some (device_index (grabber s))) (WIDTH cfg) (HEIGHT cfg)
          (FPS cfg) (JPEG_QUALITY cfg) CAP_DSHOW with
  | Ok d0 => fst (_open_driver cfg s) = fst (usb_camera.open (d0, env s))
  | Raise e => fst (_open_driver cfg s) = Raise e
  end.
Proof.
  rewrite open_driver_spec.
  destruct (usb_camera.__init__ _ _ _ _ _ _) as [d0|e] eqn:Hi; [|reflexivity].
  apply driver_facts.init_fields in Hi as (Hi & _).
  rewrite <- (driver_facts.open_fst_devices d0 (device_index (grabber s)) (env s)
                (disposed s) Hi (disposed_device s _)).
  destruct (usb_camera.open _) as [r [d' w']]. reflexivity.
Qed.

(** [start] raises only what the driver's constructor or its [open()]
    raised, and then starts no loop. *)
Lemma start_raises cfg s e :
  fst (start cfg s) = Raise e →
  thread_alive s = false
  ∧ (usb_camera.__init__ (Some (device_index (grabber s))) (WIDTH cfg) (HEIGHT cfg)
       (FPS cfg) (JPEG_QUALITY cfg) CAP_DSHOW = Raise e
     ∨ ∃ d0, usb_camera.__init__ (Some (device_index (grabber s))) (WIDTH cfg) (HEIGHT cfg)
               (FPS cfg) (JPEG_QUALITY cfg) CAP_DSHOW = Ok d0
             ∧ fst (usb_camera.open (d0, env s)) = Raise e)
  ∧ threads (snd (start cfg s)) = threads s
  ∧ thread (grabber (snd (start cfg s))) = thread (grabber s).
Proof.
  intros Hr.
  destruct (start_spec cfg s) as [[_ E]|(Ha & r & s1 & Ho & Hc & E)];
    rewrite E in Hr |- *; [discriminate|].
  pose proof (open_driver_eq cfg (on_grabber (set_stop_evt false) s)) as Hf.
  rewrite Ho in Hf. cbn in Hf.
  apply control_eq in Hc as (_ & Hc2 & _ & _ & _ & _ & Hc7).
  destruct r; [discriminate|]. cbn in Hr |- *. injection Hr as ->.
  split; [done|]. split; [|done].
  destruct (usb_camera.__init__ _ _ _ _ _ _) as [d0|e0]; [right; eauto|left; congruence].
Qed.

Lemma start_surfaces cfg s d0 e :
  thread_alive s = false →
  usb_camera.__init__ (Some (device_index (grabber s))) (WIDTH cfg) (HEIGHT cfg)
    (FPS cfg) (JPEG_QUALITY cfg) CAP_DSHOW = Ok d0 →
  fst (usb_camera.open (d0, env s)) = Raise e →
  fst (start cfg s) = Raise e.
Proof.
  intros Ha Hi Ho.
  destruct (start_spec cfg s) as [[E _]|(_ & r & s1 & Hod & _ & ->)]; [congruence|].
  pose proof (open_driver_eq cfg (on_grabber (set_stop_evt false) s)) as Hf.
  rewrite Hod in Hf. cbn in Hf. rewrite Hi, Ho in Hf. cbn in Hf. subst r. reflexivity.
Qed.

Lemma start_surfaces_init cfg s e :
  thread_alive s = false →
  usb_camera.__init__ (Some (device_index (grabber s))) (WIDTH cfg) (HEIGHT cfg)
    (FPS cfg) (JPEG_QUALITY cfg) CAP_DSHOW = Raise e →
  fst (start cfg s) = Raise e.
Proof.
  intros Ha Hi.
  destruct (start_spec cfg s) as [[E _]|(_ & r & s1 & Hod & _ & ->)]; [congruence|].
  pose proof (open_driver_eq cfg (on_grabber (set_stop_evt false) s)) as Hf.
  rewrite Hod in Hf. cbn in Hf. rewrite Hi in Hf. cbn in Hf. subst r. reflexivity.
Qed.



(** C4.  [PUT /camera/enable] answers 400 when the body has no [enabled]
    field, leaving the state alone; otherwise it calls [set_enabled] and
    answers with the resulting [enabled] value, which is the requested one,
    or, when the call raises, with 500 carrying the exception.  The call
    raises only on a request to enable a disabled grabber, with what the
    driver's constructor or its [open()] raised; and such a failure always
    comes back as a 500. *)
Theorem camera_enable_replies (cfg : Config) (payload : gmap string bool) (b : nat)
    (s : Sys) :
  match payload !! "enabled" with
  | None =>
      camera_enable cfg payload b s
      = (HTTPException 400 (Text "Missing 'enabled' boolean"), s)
  | Some flag =>
      match set_enabled cfg flag b s with
      | (Ok _, s') =>
          camera_enable cfg payload b s = (EnabledJSON (enabled (grabber s')), s')
          ∧ enabled (grabber s') = flag
      | (Raise e, s') =>
          camera_enable cfg payload b s = (HTTPException 500 (OfExn e), s')
          ∧ flag = true ∧ enabled (grabber s) = false
          ∧ (usb_camera.__init__ (Some (device_index (grabber s))) (WIDTH cfg)
               (HEIGHT cfg) (FPS cfg) (JPEG_QUALITY cfg) CAP_DSHOW = Raise e
             ∨ ∃ d0, usb_camera.__init__ (Some (device_index (grabber s))) (WIDTH cfg)
                       (HEIGHT cfg) (FPS cfg) (JPEG_QUALITY cfg) CAP_DSHOW = Ok d0
                     ∧ fst (usb_camera.open (d0, env s)) = Raise e)
      end
      ∧ ∀ e,
          flag = true → enabled (grabber s) = false → thread_alive s = false →
          (usb_camera.__init__ (Some (device_index (grabber s))) (WIDTH cfg)
             (HEIGHT cfg) (FPS cfg) (JPEG_QUALITY cfg) CAP_DSHOW = Raise e
           ∨ ∃ d0, usb_camera.__init__ (Some (device_index (grabber s))) (WIDTH cfg)
                     (HEIGHT cfg) (FPS cfg) (JPEG_QUALITY cfg) CAP_DSHOW = Ok d0
                   ∧ fst (usb_camera.open (d0, env s)) = Raise e) →
          fst (camera_enable cfg payload b s) = HTTPException 500 (OfExn e)
  end.
Proof.
  unfold camera_enable. destruct (payload !! "enabled") as [flag|]; [|reflexivity].
  split.
  - pose proof (set_enabled_result cfg flag b s) as Hres.
    pose proof (set_enabled_spec cfg flag b s) as Hspec.
    destruct (set_enabled cfg flag b s) as [[u|e] s'] eqn:E; cbn [snd] in Hres.
    { split; [reflexivity|exact Hres]. }
    split; [reflexivity|].
    destruct (Bool.eqb flag (enabled (grabber s))) eqn:Eq; [discriminate|].
    destruct flag.
    + split; [reflexivity|]. split; [by destruct (enabled (grabber s))|].
      assert (fst (start cfg (on_grabber (set_enabled_field true) s)) = Raise e) as Hr
        by (rewrite <- Hspec; reflexivity).
      destruct (start_raises _ _ _ Hr) as (_ & Hd & _). exact Hd.
    + destruct (stop_frame b (on_grabber (set_enabled_field false) s)) as (Hok & _).
      rewrite <- Hspec in Hok. discriminate.
  - intros e -> He Ha Hraise.
    rewrite set_enabled_spec, He. cbn [Bool.eqb].
    assert (fst (start cfg (on_grabber (set_enabled_field true) s)) = Raise e) as Hf.
    { destruct Hraise as [Hi|(d0 & Hi & Ho)];
        [exact (start_surfaces_init cfg (on_grabber (set_enabled_field true) s) e Ha Hi)
        |exact (start_surfaces cfg (on_grabber (set_enabled_field true) s) d0 e Ha Hi Ho)]. }
    destruct (start cfg (on_grabber (set_enabled_field true) s)) as [r s'].
    cbn in Hf. subst r. reflexivity.
Qed.

(** *** After a [stop] *)











(** *** The published payload is never empty *)

(** A property kept by the grabber's building blocks is kept by every
    action. *)
Lemma perform_ind (P : Sys → Prop) cfg :
  (∀ t s, P s → P (loop_step t s)) →
  (∀ s, P s → P (snd (start cfg s))) →
  (∀ b s, P s → P (snd (stop b s))) →
  (∀ f s, P s → P (on_grabber (set_enabled_field f) s)) →
  (∀ q s, P s → P (snd (in_world (sleep q) s))) →
  ∀ a s, P s → P (perform cfg a s).
Proof.
  intros Hl Hs Ht He Hw a s HP.
  assert (∀ flag b, P (snd (set_enabled cfg flag b s))) as Hse.
  { intros flag b. rewrite set_enabled_spec.
    destruct (Bool.eqb _ _); [done|]. destruct flag; [apply Hs|apply Ht]; by apply He. }
  destruct a as [t| |b|flag b|p b|b]; cbn [perform]; auto.
  - unfold camera_enable. destruct (p !! "enabled") as [flag|]; [|done].
    specialize (Hse flag b).
    destruct (set_enabled cfg flag b s) as [[] ?]; exact Hse.
  - rewrite camera_reopen_spec. destruct (enabled (grabber s)); [|done].
    pose proof (Hs _ (Hw (2 # 10) _ (Ht b _ HP))) as H.
    destruct (start cfg _) as [[] ?]; exact H.
Qed.

Lemma run_ind (P : Sys → Prop) cfg :
  (∀ a s, P s → P (perform cfg a s)) →
  ∀ acts s, P s → P (run cfg acts s).
Proof.
  intros Hp acts. induction acts as [|a acts IH]; intros s HP; cbn; [done|].
  apply IH, Hp, HP.
Qed.

Lemma join_steps_kept (P : Sys → Prop) :
  (∀ t s, P s → P (loop_step t s)) →
  (∀ s, P s → P (set_env (wait 2 (env s)) s)) →
  ∀ b t s, P s → P (join_steps t b s).
Proof.
  intros Hstep Henv. induction b as [|b IH]; intros t s Hs; cbn.
  - destruct (threads s !! t) as [pc|]; [|done]. destruct (is_alive pc); [|done].
    by apply Henv.
  - destruct (threads s !! t) as [pc|]; [|done]. destruct (is_alive pc); [|done].
    by apply IH, Hstep.
Qed.

Lemma nonempty_jpegs_spec q w :
  nonempty_jpegs q w = true →
  ∀ i, forallb (jpeg_nonempty q) (shots (device w i)) = true.
Proof.
  unfold nonempty_jpegs. rewrite forallb_forall. intros H i. unfold device.
  destruct (devices w !! i) as [dev|] eqn:E; [|reflexivity].
  apply (H (i, dev)), list_elem_of_In, elem_of_map_to_list, E.
Qed.

Lemma payload_sound_set_pc q t pc s :
  payload_sound q s → (∀ m, pc = AtPublish m → data m ≠ []) →
  payload_sound q (set_pc t pc s).
Proof.
  intros (H1 & H2 & H3 & H4) Hm. repeat split; try done.
  intros t' m. cbn. intros [(-> & H & _)|[_ H]]%list_lookup_insert_Some; eauto.
Qed.

Lemma on_driver_sound {A} q (c : Eff usb_camera.St A) s :
  (∀ d w, usb_camera.jpeg_quality d = q →
          (∀ i, forallb (jpeg_nonempty q) (shots (device w i)) = true) →
          usb_camera.jpeg_quality (fst (snd (c (d, w)))) = q
          ∧ ∀ i, forallb (jpeg_nonempty q) (shots (device (snd (snd (c (d, w)))) i)) = true) →
  payload_sound q s → payload_sound q (snd (on_driver c s)).
Proof.
  intros Hc Hp. unfold on_driver.
  destruct (driver (grabber s)) as [d|] eqn:Hd; [|exact Hp].
  destruct Hp as (H1 & H2 & H3 & H4).
  destruct (Hc d (env s) (H2 d Hd) H1) as [Hq Ht].
  destruct (c (d, env s)) as [r [d' w']]. cbn in *.
  repeat split; try done. by intros d0 [= <-].
Qed.

Lemma loop_step_sound q t s : payload_sound q s → payload_sound q (loop_step t s).
Proof.
  intros Hp. unfold loop_step.
  destruct (threads s !! t) as [[| | | |m|]|] eqn:E; try done.
  - destruct (driver (grabber s)); by apply payload_sound_set_pc.
  - destruct (stop_evt (grabber s)); by apply payload_sound_set_pc.
  - assert (payload_sound q (snd (on_driver usb_camera.read s))) as Hp1.
    { apply on_driver_sound; [|done]. intros d w Hq Ht.
      destruct (usb_camera.read (d, w)) as [r [d' w']] eqn:Hr.
      destruct (driver_facts.read_sound q d w r d' w' Hr Hq Ht) as (? & ? & _). done. }
    assert (∀ m, fst (on_driver usb_camera.read s) = Ok (Some m) → data m ≠ []) as Hm.
    { intros m. unfold on_driver. destruct Hp as (H1 & H2 & _).
      destruct (driver (grabber s)) as [d|]; [|done].
      destruct (usb_camera.read (d, env s)) as [r [d' w']] eqn:Hr. cbn.
      destruct (driver_facts.read_sound q d (env s) r d' w' Hr (H2 d eq_refl) H1)
        as (_ & _ & Hd).
      apply Hd. }
    destruct (on_driver usb_camera.read s) as [[[m|]|e] s1]; cbn in Hp1, Hm;
      apply payload_sound_set_pc; try done.
    intros m' [= <-]. by apply Hm.
  - by apply payload_sound_set_pc.
  - apply payload_sound_set_pc; [|done]. destruct Hp as (H1 & H2 & H3 & H4).
    repeat split; try done. cbn. intros [= Hd]. by apply (H4 t m E).
Qed.

Lemma close_driver_sound q s : payload_sound q s → payload_sound q (snd (_close_driver s)).
Proof.
  intros Hp. unfold _close_driver. run_sys.
  destruct (driver (grabber s)) as [d|] eqn:Hd.
  - assert (payload_sound q (snd (on_driver usb_camera.close s))) as Hp1.
    { apply on_driver_sound; [|done]. intros d0 w Hq Ht.
      destruct (driver_facts.close_sound q d0 w Ht) as [-> ?]. done. }
    destruct (on_driver usb_camera.close s) as [[] s1]; cbn in *;
      destruct Hp1 as (H1 & H2 & H3 & H4); repeat split; done.
  - cbn. destruct Hp as (H1 & H2 & H3 & H4). repeat split; done.
Qed.

Lemma stop_sound q b s : payload_sound q s → payload_sound q (snd (stop b s)).
Proof.
  intros Hp. destruct (stop_spec b s) as (s4 & Hc & -> & _). cbn [snd].
  assert (payload_sound q (joined b s)) as Hj.
  { unfold joined. destruct (thread (grabber s)); [|exact Hp].
    apply join_steps_kept; [apply loop_step_sound|done|exact Hp]. }
  pose proof (close_driver_sound q (on_grabber (set_thread None) (joined b s)) Hj) as H4.
  rewrite Hc in H4. destruct H4 as (H1 & H2 & H3 & H4). repeat split; done.
Qed.

Lemma start_sound cfg s :
  payload_sound (JPEG_QUALITY cfg) s → payload_sound (JPEG_QUALITY cfg) (snd (start cfg s)).
Proof.
  intros Hp.
  destruct (start_spec cfg s) as [[_ ->]|(_ & r & s1 & Ho & _ & ->)]; [exact Hp|].
  assert (payload_sound (JPEG_QUALITY cfg) s1) as Hp1.
  { rewrite open_driver_spec in Ho. destruct Hp as (H1 & H2 & H3 & H4).
    destruct (usb_camera.__init__ _ _ _ _ _ _) as [d|e] eqn:Hi;
      [|injection Ho as <- <-; repeat split; done].
    apply driver_facts.init_fields in Hi as (Hdi & _ & _ & _ & Hq).
    destruct (driver_facts.open_sound (JPEG_QUALITY cfg) d
                (disposed (on_grabber (set_stop_evt false) s)) _ Hdi) as [Hq' Ht'].
    { intros j. rewrite disposed_device. apply H1. }
    destruct (usb_camera.open _) as [r' [d' w']]. injection Ho as <- <-. cbn in *.
    repeat split; try done. intros d0 [= <-]. congruence. }
  destruct r; cbn [snd]; [|exact Hp1].
  destruct Hp1 as (H1 & H2 & H3 & H4). repeat split; try done.
  intros t m [H|[_ H]]%lookup_app_Some; [by eapply H4|].
  by destruct (t - length (threads s1))%nat as [|[|]].
Qed.

Lemma perform_sound cfg a s :
  payload_sound (JPEG_QUALITY cfg) s → payload_sound (JPEG_QUALITY cfg) (perform cfg a s).
Proof.
  apply perform_ind; [apply loop_step_sound|apply start_sound|apply stop_sound|done|].
  intros q s0 (H1 & H2 & H3 & H4). unfold in_world, zoom. repeat split; done.
Qed.

Lemma boot_sound cfg w :
  nonempty_jpegs (JPEG_QUALITY cfg) w = true → payload_sound (JPEG_QUALITY cfg) (boot cfg w).
Proof.
  intros Hw. unfold boot.
  set (s0 := {| grabber := FrameGrabber__init__ cfg; threads := []; env := w |}).
  assert (payload_sound (JPEG_QUALITY cfg) s0) as H0.
  { split; [by apply nonempty_jpegs_spec|]. repeat split; try done. }
  destruct (enabled (grabber s0)); [|exact H0].
  assert (snd (try_except (start cfg) (λ _, eff_ret tt) s0) = snd (start cfg s0)) as ->.
  { unfold try_except, eff_ret. destruct (start cfg s0) as [[] ?]; reflexivity. }
  by apply start_sound.
Qed.

(** C3.  In every state the grabber reaches -- the encoder never
    answering success with an empty buffer -- the published payload, when
    there is one, is not the empty byte string, and [GET /camera/frame]
    answers 409 when the grabber is disabled, 404 when it is enabled and
    nothing is published, and otherwise exactly the published bytes, as
    [image/jpeg]. *)
Theorem camera_frame_replies (cfg : Config) (w : World) (acts : list Action) :
  nonempty_jpegs (JPEG_QUALITY cfg) w = true →
  let s := run cfg acts (boot cfg w) in
  latest_frame (grabber s) ≠ Some []
  ∧ camera_frame s =
      if enabled (grabber s) then
        match latest_frame (grabber s) with
        | Some p => Response p "image/jpeg"
        | None => HTTPException 404 (Text "No frame available yet")
        end
      else HTTPException 409 (Text "Camera disabled").
Proof.
  intros Hw s.
  destruct (run_ind (payload_sound (JPEG_QUALITY cfg)) cfg (perform_sound cfg) acts _
              (boot_sound cfg w Hw)) as (_ & _ & Hne & _).
  fold s in Hne. split; [exact Hne|].
  rewrite service_facts.camera_frame_cases.
  destruct (enabled (grabber s)); [|reflexivity].
  by destruct (latest_frame (grabber s)) as [[|b p]|].
Qed.

End grabber_facts.

(* ===================================================================== *)
(** ** The statements at work on the sample worlds *)
(* ===================================================================== *)

Module samples.
Import usb_camera driver_life api service.

(** A driver opened on the camera of index 1, read, then closed: the read
    that follows raises. *)
Lemma read_needs_open_witness :
  __init__ (Some 1) 640 480 10 85 CAP_DSHOW = Ok configured_driver
  ∧ let '(l, st) := history [CallOpen; CallRead; CallClose] Unopened
                      (configured_driver, one_camera) in
    match l with
    | Opened => ∃ m st', read st = (Ok m, st')
    | Unopened | Closed =>
        read st = (Raise (RuntimeError CallOpenFirst), st)
        ∧ error_kind (RuntimeError CallOpenFirst) = Some NotOpen
    end.
Proof.
  split; [reflexivity|].
  apply (driver_facts.read_needs_open (Some 1) 640 480 10 85 CAP_DSHOW configured_driver
           one_camera [CallOpen; CallRead; CallClose]).
  reflexivity.
Defined.

(** Probing a world whose first usable camera sits on index 2. *)
Lemma open_probes_witness :
  usb_camera.device_index probing_driver = None
  ∧ ∃ w1,
      _probe_device_index 10 three_slots
      = (Ok (List.find (qualifies three_slots) (seqZ 0 10)), w1)
      ∧ attempts (added three_slots w1)
        = seqZ 0 (match List.find (qualifies three_slots) (seqZ 0 10) with
                  | Some i => i + 1
                  | None => 10
                  end)
      ∧ held w1 = held three_slots
      ∧ match List.find (qualifies three_slots) (seqZ 0 10) with
        | Some i =>
            open (probing_driver, three_slots) = open (set_device_index (Some i) probing_driver, w1)
            ∧ usb_camera.device_index (fst (snd (open (probing_driver, three_slots)))) = Some i
            ∧ match fst (open (probing_driver, three_slots)) with
              | Ok _ => _cap (fst (snd (open (probing_driver, three_slots)))) = Some i
              | Raise _ => True
              end
        | None =>
            open (probing_driver, three_slots)
            = (Raise (RuntimeError NoCameraFound), (probing_driver, w1))
            ∧ error_kind (RuntimeError NoCameraFound) = Some DeviceUnavailable
        end.
Proof.
  split; [reflexivity|].
  apply (driver_facts.open_probes probing_driver three_slots). reflexivity.
Defined.

(** Two reads on the camera of index 1 at 10 fps, the second 50 ms after
    the first. *)
Lemma read_paces_witness :
  __init__ (Some 1) 640 480 10 85 CAP_DSHOW = Ok configured_driver
  ∧ open (configured_driver, one_camera)
    = (Ok tt, (fst opened_camera, snd opened_camera))
  ∧ Forall nonneg [0; 1 # 20]%Q
  ∧ Forall nonneg (oversleep (snd opened_camera))
  ∧ spaced (1 / inject_Z (Z.max 1 10))
      (grab_times
         (added (snd opened_camera)
            (snd (reads [0; 1 # 20]%Q (fst opened_camera, snd opened_camera))))).
Proof.
  assert (Forall nonneg [0; 1 # 20]%Q) as Hd
    by (repeat constructor; unfold nonneg; lra).
  assert (open (configured_driver, one_camera)
          = (Ok tt, (fst opened_camera, snd opened_camera))) as Ho
    by (vm_compute; reflexivity).
  assert (Forall nonneg (oversleep (snd opened_camera))) as Hs
    by (vm_compute; constructor).
  split; [reflexivity|]. split; [exact Ho|].
  split; [exact Hd|]. split; [exact Hs|].
  exact (proj2 (proj2 (proj2
    (driver_facts.read_paces (Some 1) 640 480 10 85 CAP_DSHOW configured_driver
       (fst opened_camera) one_camera (snd opened_camera)
       [0; 1 # 20]%Q eq_refl Ho Hd Hs)))).
Defined.

(** GET /camera/frame once the loop of the service has published its
    first frame. *)
Lemma camera_frame_replies_witness :
  nonempty_jpegs (JPEG_QUALITY off_by_default) one_camera = true
  ∧ camera_frame published = Response jpeg_stub "image/jpeg"
  ∧ latest_frame (grabber published) ≠ Some []
  ∧ camera_frame published =
      if enabled (grabber published) then
        match latest_frame (grabber published) with
        | Some p => Response p "image/jpeg"
        | None => HTTPException 404 (Text "No frame available yet")
        end
      else HTTPException 409 (Text "Camera disabled").
Proof.
  assert (nonempty_jpegs (JPEG_QUALITY off_by_default) one_camera = true) as H
    by (vm_compute; reflexivity).
  split; [exact H|]. split; [vm_compute; reflexivity|].
  exact (grabber_facts.camera_frame_replies off_by_default one_camera
           (until_publish ++ [Tick 0]) H).
Defined.

(** The stream of the service once its loop has published the four bytes
    of its first frame: the length numeral is the one byte [4]. *)
Lemma stream_chunk_format_witness :
  gen_iter published = (Yield (part_bytes [x34] jpeg_stub), published)
  ∧ ∃ p, get_latest_jpeg published = Some p
         ∧ p ≠ []
         ∧ enabled (grabber published) = true
         ∧ part_bytes [x34] jpeg_stub = multipart_chunk "frame" "image/jpeg" p
         ∧ part_bytes [x34] jpeg_stub
           = encode ("--frame" ++ CRLF ++ "Content-Type: image/jpeg" ++ CRLF
                     ++ "Content-Length: " ++ str (len p) ++ CRLF ++ CRLF)%string
             ++ p ++ encode CRLF
         ∧ int_of_str (str (len p)) = Some (N.of_nat (length p))
         ∧ (∃ digits,
              part_bytes [x34] jpeg_stub
              = part_head ++ digits ++ [x0d; x0a; x0d; x0a] ++ p ++ [x0d; x0a]
              ∧ decimal digits = Some (N.of_nat (length p)))
         ∧ published = published.
Proof.
  assert (gen_iter published = (Yield (part_bytes [x34] jpeg_stub), published)) as H
    by (vm_compute; reflexivity).
  split; [exact H|].
  exact (service_facts.stream_chunk_format published published _ H).
Defined.

(** Switched on, two steps of the loop, switched off with a [join] that
    sees the loop exit. *)
Lemma disabled_is_idle_witness :
  let acts := [PutEnable (want true) 0; Tick 0; Tick 0; PutEnable (want false) 5] in
  forallb served acts = true
  ∧ joins_in_time off_by_default acts (boot off_by_default one_camera) = true
  ∧ enabled (grabber (run off_by_default acts (boot off_by_default one_camera))) = false
  ∧ running (grabber (run off_by_default acts (boot off_by_default one_camera))) = false
  ∧ latest_frame (grabber (run off_by_default acts (boot off_by_default one_camera))) = None
  ∧ latest_meta (grabber (run off_by_default acts (boot off_by_default one_camera))) = ∅.
Proof.
  intros acts.
  assert (forallb served acts = true) as H1 by reflexivity.
  assert (joins_in_time off_by_default acts (boot off_by_default one_camera) = true) as H2
    by (vm_compute; reflexivity).
  assert (enabled (grabber (run off_by_default acts (boot off_by_default one_camera)))
          = false) as H3 by (vm_compute; reflexivity).
  split; [exact H1|]. split; [exact H2|]. split; [exact H3|].
  exact (proj1 (grabber_facts.disabled_is_idle off_by_default one_camera acts H1 H2 H3)).
Defined.



End samples.

(* ===================================================================== *)
(** ** More on the driver *)
(* ===================================================================== *)

Module driver_more.
Import usb_camera driver_life frames service.

#[local] Arguments _probe_device_index : simpl never.
#[local] Arguments open : simpl never.
#[local] Arguments read : simpl never.
#[local] Arguments close : simpl never.


(** X2.  [close()] never raises, forgets the capture and is idempotent;
    and closing a driver that [open()] has just opened -- by explicit
    index or by probing -- leaves held none of what the [open()]
    acquired: exactly the captures held before the [open()], less the one
    the driver was bound to before, if it was. *)
Theorem open_close_round_trip (d d1 : USBCameraDriver) (w w1 : World) :
  open (d, w) = (Ok tt, (d1, w1)) →
  ∃ w2,
    close (d1, w1) = (Ok tt, (set_cap None d1, w2))
    ∧ close (set_cap None d1, w2) = (Ok tt, (set_cap None d1, w2))
    ∧ held w2 = match _cap d with
                | Some c => remove_one c (held w)
                | None => held w
                end
    ∧ read (set_cap None d1, w2)
      = (Raise (RuntimeError CallOpenFirst), (set_cap None d1, w2)).
Proof.
  intros Ho. pose proof (driver_facts.open_held d w) as Hh. rewrite Ho in Hh.
  destruct Hh as (i & Hc & Hh).
  destruct (driver_facts.close_run d1 w1) as (w2 & Hcl & Hh2 & _). exists w2.
  split; [exact Hcl|]. split; [|split].
  - destruct (driver_facts.close_run (set_cap None d1) w2) as (w3 & Hcl3 & _).
    unfold close in *. run_eff. cbn [_cap set_cap] in *. reflexivity.
  - rewrite Hh2, Hc, Hh. destruct (_cap d);
      [apply driver_facts.remove_one_swap|apply driver_facts.remove_one_head].
  - apply driver_facts.read_unopened. reflexivity.
Qed.

(** X3.  A second [open()] on an opened driver replaces its capture: the
    first one is let go when [_cap] is bound to the second, so the driver
    never holds two.  After [open(); open()] one capture more is held than
    before the first [open()], and [close()] brings back exactly what was
    held then. *)
Theorem second_open_replaces (d d1 d2 : USBCameraDriver) (w w1 w2 : World) :
  _cap d = None →
  open (d, w) = (Ok tt, (d1, w1)) →
  open (d1, w1) = (Ok tt, (d2, w2)) →
  length (held w1) = S (length (held w))
  ∧ length (held w2) = S (length (held w))
  ∧ ∃ w3,
      close (d2, w2) = (Ok tt, (set_cap None d2, w3))
      ∧ held w3 = held w.
Proof.
  intros Hn Ho1 Ho2.
  pose proof (driver_facts.open_held d w) as H1. rewrite Ho1, Hn in H1. destruct H1 as (i & Hc1 & Hh1).
  pose proof (driver_facts.open_held d1 w1) as H2. rewrite Ho2, Hc1 in H2. destruct H2 as (j & Hc2 & Hh2).
  destruct (driver_facts.close_run d2 w2) as (w3 & Hcl & Hh3 & _).
  rewrite Hc2, Hh2, Hh1 in Hh3. rewrite Hh1 in Hh2.
  split; [by rewrite Hh1|]. split.
  - rewrite Hh2. cbn. destruct (Z.eqb_spec i j); [reflexivity|].
    cbn. by rewrite Z.eqb_refl.
  - exists w3. split; [exact Hcl|]. rewrite Hh3. cbn.
    destruct (Z.eqb_spec i j) as [->|Hne]; cbn; rewrite ?Z.eqb_refl; cbn;
      rewrite ?Z.eqb_refl; done.
Qed.

(** *** What [read()] returns *)

(** X4.  On an opened driver [read()] returns a measurement exactly when
    the device delivers a frame and the frame can be encoded, and [None]
    otherwise.  The measurement carries the encoder's bytes, the current
    timestamp, no semantic id, and metadata with exactly the keys
    [width], [height] and [format]: the format is [jpeg] and the two
    numerals read back as the columns and rows of the frame that was
    captured, whatever size was requested. *)
Theorem read_measurement (d : USBCameraDriver) (w : World) (c : Z) :
  _cap d = Some c →
  match head (shots (device w c)) with
  | Some (true, Some frame) =>
      match imencode frame (jpeg_quality d) with
      | Some buf =>
          ∃ m st', read (d, w) = (Ok (Some m), st')
                   ∧ data m = buf ∧ timestamp m = wallclock w ∧ semantic_id m = None
                   ∧ dom (meta m) = ({[ "width"; "height"; "format" ]} : gset string)
                   ∧ meta m !! "format" = Some "jpeg"
                   ∧ (meta m !! "width" ≫= int_of_str) = Some (cols frame)
                   ∧ (meta m !! "height" ≫= int_of_str) = Some (rows frame)
      | None => ∃ st', read (d, w) = (Ok None, st')
      end
  | _ => ∃ st', read (d, w) = (Ok None, st')
  end.
Proof.
  intros Hc. destruct (driver_facts.read_shot d w c Hc) as (d' & w' & Hr & _).
  destruct (head (shots (device w c))) as [[[] [frame|]]|]; cbn in Hr; eauto.
  destruct (imencode frame (jpeg_quality d)) as [buf|]; eauto.
  eexists _, _. split; [exact Hr|]. cbn [data timestamp semantic_id meta].
  split; [done|]. split; [done|]. split; [done|]. split.
  { rewrite !dom_insert_L, dom_singleton_L. set_solver. }
  split; [done|]. split.
  - rewrite lookup_insert_eq. cbn. apply service_facts.int_of_str_str.
  - rewrite lookup_insert_ne by done. rewrite lookup_insert_eq. cbn.
    apply service_facts.int_of_str_str.
Qed.

(** *** Iterating *)

Lemma iter_frames_spec (pulls : nat) : ∀ d w c,
  _cap d = Some c →
  ∃ ms st',
    iter_frames pulls (d, w)
    = (ms,
       if (pulls <=? length (leading (jpeg_quality d) (shots (device w c))))%nat
       then base.Suspended else base.StopIteration,
       st')
    ∧ map payload ms = take pulls (leading (jpeg_quality d) (shots (device w c)))
    ∧ Forall (λ m, semantic_id m = None) ms
    ∧ _cap (fst st') = Some c
    ∧ jpeg_quality (fst st') = jpeg_quality d
    ∧ held (snd st') = held w
    ∧ shots (device (snd st') c)
      = drop (length ms + (if (pulls <=? length ms)%nat then 0 else 1))
          (shots (device w c)).
Proof.
  induction pulls as [|pulls IH]; intros d w c Hc.
  - exists [], (d, w). cbn. done.
  - cbn [iter_frames].
    destruct (driver_facts.read_shot d w c Hc) as (d' & w' & -> & -> & Hs & Hh & _).
    destruct (shots (device w c)) as [|shot rest] eqn:Et; cbn [head default tail] in *;
      unfold id in *.
    { cbn. eexists [], _. split; [reflexivity|]. cbn. rewrite Hs. done. }
    cbn [leading]. destruct (encoded (jpeg_quality d) shot) as [[buf mt]|] eqn:Ee.
    + destruct (IH (set_last_frame_ts (clock w') d) w' c Hc)
        as (ms & st' & Hi & Hm & Hsem & Hc' & Hq & Hh' & Hs').
      rewrite Hi. cbn [jpeg_quality set_last_frame_ts] in *. rewrite Hs in *.
      eexists (_ :: ms), st'. split; [reflexivity|].
      split; [cbn; by rewrite Hm|]. split; [by constructor|].
      split; [done|]. split; [done|]. split; [congruence|].
      rewrite Hs'. cbn [length]. 
      assert (length ms = length (take pulls (leading (jpeg_quality d) rest))) as Hlen
        by (rewrite <- Hm; by rewrite length_map).
      destruct (Nat.leb_spec pulls (length ms)), (Nat.leb_spec (S pulls) (S (length ms)));
        try lia; cbn; f_equal; lia.
    + eexists [], _. split; [reflexivity|]. cbn. rewrite Hs. done.
Qed.

(** X5.  Pulling [n] times from [iter_frames()] on an opened driver yields
    the frames the device delivers up to its first miss, at most [n] of
    them, each as the pair of bytes and metadata that [read()] makes of
    it; the generator is exhausted exactly when the miss was reached,
    never ends by an exception, and leaves the capture open.  The
    inherited [DriverBase.iter()] does the same. *)
Theorem iter_frames_yields (n : nat) (d : USBCameraDriver) (w : World) (c : Z) :
  _cap d = Some c →
  let delivered := leading (jpeg_quality d) (shots (device w c)) in
  ∃ ms st',
    iter_frames n (d, w)
    = (ms, if (n <=? length delivered)%nat then base.Suspended else base.StopIteration, st')
    ∧ base.iter n (d, w) = iter_frames n (d, w)
    ∧ map payload ms = take n delivered
    ∧ _cap (fst st') = Some c
    ∧ held (snd st') = held w.
Proof.
  intros Hc delivered.
  destruct (iter_frames_spec n d w c Hc) as (ms & st' & Hi & Hm & _ & Hc' & _ & Hh & _).
  exists ms, st'. split; [exact Hi|]. split; [|done].
  clear. generalize (d, w). induction n as [|n IH]; intros st; [reflexivity|].
  cbn. destruct (read st) as [[[m|]|e] st1]; try reflexivity. by rewrite IH.
Qed.

End driver_more.

(* ===================================================================== *)
(** ** The capture script *)
(* ===================================================================== *)

Module script_facts.
Import usb_camera driver_life frames run_usb_camera.

#[local] Arguments open : simpl never.
#[local] Arguments read : simpl never.
#[local] Arguments close : simpl never.
#[local] Arguments iter_frames : simpl never.

(** X6.  Whatever the device does, [main()] leaves no capture open that
    it opened: it raises only what [open()] raised, before anything is
    held, and otherwise closes the driver on both of its paths.  It writes
    at most one file, [out/frame_0.jpg], holding the JPEG of the frame
    delivered right after the verification read -- and none when that
    frame is missed. *)
Theorem main_releases (w : World) :
  let '(r, w', files) := main w in
  held w' = held w
  ∧ match head (attach (device w 1)), shots (device w 1) with
    | Some true, (true, _) :: rest =>
        r = Ok tt
        ∧ files = match encoded 85 (default (false, None) (head rest)) with
                  | Some (buf, _) => [("out/frame_0.jpg"%string, buf)]
                  | None => []
                  end
    | Some true, _ => r = Raise (RuntimeError OpenedButNoFrame) ∧ files = []
    | _, _ => r = Raise (RuntimeError (CannotOpenCamera 1)) ∧ files = []
    end.
Proof.
  unfold main.
  set (d := {| usb_camera.device_index := Some 1; width := 640; height := 480; fps := 10;
               jpeg_quality := 85; backend := CAP_DSHOW; _cap := None;
               _last_frame_ts := 0; _frame_interval := 1 / inject_Z (Z.max 1 10) |}).
  change (__init__ (Some 1) 640 480 10 85 CAP_DSHOW) with (Ok d). cbv iota beta.
  destruct (driver_facts.open_explicit_run d w 1 eq_refl) as (w1 & Ho & _ & _ & Hs1 & _).
  assert (fits (width d) && fits (height d) && fits (fps d) = true) as Hfit
    by (vm_compute; reflexivity).
  rewrite Hfit in Ho, Hs1. change (_cap d) with (@None Z) in Ho.
  run_script.
  destruct (head (attach (device w 1))) as [[]|] eqn:Ea.
  2,3: destruct Ho as [-> Hh]; cbn; done.
  destruct (shots (device w 1)) as [|[[] fr0] rest] eqn:Et; cbn [head tail] in *.
  1,3: destruct Ho as [-> Hh]; cbn; done.
  destruct Ho as [-> Hh1]. cbn [fst snd].
  set (d1 := set_last_frame_ts 0 (set_cap (Some 1) d)) in *.
  destruct (driver_facts.read_shot d1 w1 1 eq_refl) as (d2 & w2 & -> & Hd2 & Hs2 & Hh2 & _).
  rewrite Hs1 in *. cbn [fst snd].
  change (jpeg_quality d1) with 85.
  destruct (encoded 85 (default (false, None) (head rest))) as [[buf mt]|] eqn:Ee.
  - cbn [fst snd data].
    assert (_cap d2 = Some 1) as Hc2 by (by subst d2).
    destruct (driver_more.iter_frames_spec 10 d2 w2 1 Hc2)
      as (ms & [d3 w3] & -> & _ & _ & Hc3 & _ & Hh3 & _).
    cbn [fst snd] in *.
    destruct (driver_facts.close_run d3 w3) as (w4 & Hcl & Hh4 & _).
    destruct (_ <=? _)%nat; cbn [fst snd]; rewrite Hcl; cbn;
      (split; [|done]); rewrite Hh4, Hc3, Hh3, Hh2, Hh1;
      apply driver_facts.remove_one_head.
  - cbn [fst snd].
    destruct (driver_facts.close_run d2 w2) as (w4 & Hcl & Hh4 & _).
    rewrite Hcl. cbn. split; [|done].
    rewrite Hh4. subst d2. cbn [_cap set_last_frame_ts set_cap d1].
    rewrite Hh2, Hh1. apply driver_facts.remove_one_head.
Qed.

End script_facts.

(* ===================================================================== *)
(** ** The retry loop of the uploader *)
(* ===================================================================== *)

Module uploader_facts.
Import uploader.

Lemma pow2_succ k : (pow2 (S k) == 2 * pow2 k)%Q.
Proof.
  unfold pow2. rewrite Nat2Z.inj_succ, Z.pow_succ_r by lia.
  rewrite inject_Z_mult. reflexivity.
Qed.

Lemma pow2_ge_1 k : (1 <= pow2 k)%Q.
Proof.
  unfold pow2. change 1%Q with (inject_Z 1). rewrite <- Zle_Qle.
  pose proof (Z.pow_pos_nonneg 2 (Z.of_nat k)). lia.
Qed.

(** Doubling under the cap follows the powers of two. *)
Lemma capped_double b k :
  (b == Qmin 30 (pow2 k))%Q → (Qmin max_backoff (b * 2) == Qmin 30 (pow2 (S k)))%Q.
Proof.
  intros Hb. unfold max_backoff.
  pose proof (pow2_succ k) as Hs. pose proof (pow2_ge_1 k) as H1.
  destruct (Q.min_spec 30 (pow2 k)) as [[? E1]|[? E1]];
    destruct (Q.min_spec 30 (b * 2)) as [[? E2]|[? E2]];
    destruct (Q.min_spec 30 (pow2 (S k))) as [[? E3]|[? E3]];
    rewrite ?E2, ?E3; rewrite E1 in Hb; lra.
Qed.

Lemma passes_spec results : ∀ b k,
  (b == Qmin 30 (pow2 k))%Q →
  Forall (λ x, 1 <= x <= 30)%Q (fst (passes results b))
  ∧ (snd (passes results b) == Qmin 30 (pow2 (streak results k)))%Q
  ∧ length (fst (passes results b)) = length results.
Proof.
  induction results as [|r results IH]; intros b k Hb; cbn [passes streak].
  - cbn. split; [constructor|]. split; [exact Hb|reflexivity].
  - assert (1 <= b <= 30)%Q as Hrange.
    { pose proof (pow2_ge_1 k).
      destruct (Q.min_spec 30 (pow2 k)) as [[? E]|[? E]]; rewrite E in Hb; lra. }
    destruct r; cbn [pass].
    + destruct (IH 1%Q 0%nat) as (Hf & He & Hl).
      { unfold pow2. cbn. reflexivity. }
      destruct (passes results 1) as [sleeps b']. cbn [fst snd] in *.
      split; [constructor; [unfold PERIOD_SEC; lra|done]|]. split; [done|].
      cbn. by rewrite Hl.
    + destruct (IH (Qmin max_backoff (b * 2)) (S k) (capped_double b k Hb)) as (Hf & He & Hl).
      destruct (passes results _) as [sleeps b']. cbn [fst snd] in *.
      split; [by constructor|]. split; [done|]. cbn. by rewrite Hl.
    + destruct (IH (Qmin max_backoff (b * 2)) (S k) (capped_double b k Hb)) as (Hf & He & Hl).
      destruct (passes results _) as [sleeps b']. cbn [fst snd] in *.
      split; [by constructor|]. split; [done|]. cbn. by rewrite Hl.
Qed.

(** X7.  The uploader sleeps once per pass, never less than one second
    and never more than thirty; and after any history of writes its
    back-off is [min(30, 2^k)] seconds, [k] being the number of writes
    that have failed since the last one that went through: a success
    resets it, each failure doubles it up to the cap. *)
Theorem backoff_doubles_to_cap (results : list WriteResult) :
  Forall (λ x, 1 <= x <= 30)%Q (fst (main_loop results))
  ∧ length (fst (main_loop results)) = length results
  ∧ (snd (main_loop results) == Qmin 30 (pow2 (streak results 0)))%Q
  ∧ (1 <= snd (main_loop results) <= 30)%Q.
Proof.
  unfold main_loop.
  destruct (passes_spec results 1%Q 0%nat) as (Hf & He & Hl).
  { unfold pow2. cbn. reflexivity. }
  split; [done|]. split; [done|]. split; [done|].
  pose proof (pow2_ge_1 (streak results 0)).
  destruct (Q.min_spec 30 (pow2 (streak results 0))) as [[? E]|[? E]];
    rewrite E in He; lra.
Qed.

End uploader_facts.

(* ===================================================================== *)
(** ** More on the frame grabber *)
(* ===================================================================== *)

Module grabber_more.
Import api service service_more.

#[local] Arguments usb_camera.open : simpl never.
#[local] Arguments usb_camera.read : simpl never.
#[local] Arguments usb_camera.close : simpl never.
#[local] Arguments usb_camera.__init__ : simpl never.
#[local] Arguments sleep : simpl never.
#[local] Arguments wait : simpl never.

(** *** Leaving the loop *)

(** Where one step takes a loop. *)
Lemma loop_step_next t s pc :
  threads s !! t = Some pc →
  ∃ pc', threads (loop_step t s) !! t = Some pc'
         ∧ match pc with
           | AtEntry => pc' = AtWhile ∨ pc' = Exited
           | AtWhile => pc' = if stop_evt (grabber s) then Exited else AtRead
           | AtRead => pc' = AtSleep ∨ (∃ m, pc' = AtPublish m) ∨ pc' = Exited
           | AtSleep | AtPublish _ => pc' = AtWhile
           | Exited => pc' = Exited
           end.
Proof.
  intros Hl. pose proof (lookup_lt_Some _ _ _ Hl) as Hlt.
  unfold loop_step. rewrite Hl. destruct pc.
  - destruct (driver (grabber s)); eexists; (split; [apply list_lookup_insert_eq; done|]);
      eauto.
  - destruct (stop_evt (grabber s)); eexists;
      (split; [apply list_lookup_insert_eq; done|]); eauto.
  - pose proof (grabber_facts.on_driver_control usb_camera.read s) as Hc.
    apply grabber_facts.control_eq in Hc as (_ & _ & _ & _ & _ & _ & Hth).
    destruct (on_driver usb_camera.read s) as [[[m|]|e] s1]; cbn [snd] in Hth;
      eexists; (split; [apply list_lookup_insert_eq; cbn; by rewrite Hth|]); eauto.
  - pose proof (grabber_facts.in_world_control (sleep (5 # 100)) s) as Hc.
    apply grabber_facts.control_eq in Hc as (_ & _ & _ & _ & _ & _ & Hth).
    eexists. split; [apply list_lookup_insert_eq; cbn; by rewrite Hth|]. done.
  - eexists. split; [apply list_lookup_insert_eq; done|]. done.
  - eauto.
Qed.

Lemma join_steps_exits b : ∀ t s pc,
  stop_evt (grabber s) = true → threads s !! t = Some pc → (rank pc ≤ b)%nat →
  threads (join_steps t b s) !! t = Some Exited
  ∧ (is_alive pc = true → pc ≠ AtEntry → running (grabber (join_steps t b s)) = false).
Proof.
  induction b as [|b IH]; intros t s pc Hev Hl Hr; cbn [join_steps]; rewrite Hl.
  - destruct pc; cbn in Hr; try lia. cbn. done.
  - destruct (is_alive pc) eqn:Ha; [|by destruct pc].
    destruct (loop_step_next t s pc Hl) as (pc' & Hl' & Hnext).
    destruct (grabber_facts.loop_step_spec t s)
      as [[[E|E] _]|(pc0 & pc0' & Hl0 & _ & Hth & _ & _ & Hev' & Hne & Hrun & _)];
      [congruence| rewrite Hl in E; injection E as ->; discriminate |].
    rewrite Hl in Hl0. injection Hl0 as <-.
    assert (pc0' = pc') as ->.
    { rewrite Hth, list_lookup_insert_eq in Hl' by (eapply lookup_lt_Some, Hl). congruence. }
    rewrite <- Hev' in Hev.
    assert (rank pc' ≤ b)%nat as Hr'.
    { rewrite Hev' in Hev. destruct pc; cbn in Hr, Hnext; rewrite ?Hev in Hnext;
        destruct Hnext as [->|[[m ->]| ->]] || destruct Hnext as [->| ->] || subst pc';
        cbn; lia. }
    destruct (IH t (loop_step t s) pc' Hev Hl' Hr') as [Hex Hrun'].
    split; [exact Hex|]. intros _ Hpc.
    destruct (is_alive pc') eqn:Ha'.
    + apply Hrun'; done.
    + assert (join_steps t b (loop_step t s) = loop_step t s) as ->
        by (destruct b; cbn; rewrite Hl', Ha'; reflexivity).
      rewrite Hrun. destruct pc, pc'; try done.
Qed.

(** X8.  Once [stop_evt] is set, a loop leaves after at most three of its
    own steps, wherever it stands: a [join] that lets the loop take three
    steps finds it exited, with [running] cleared if it had begun to
    run. *)
Theorem loop_exits_in_three (s : Sys) (t b : nat) (pc : Pc) :
  stop_evt (grabber s) = true →
  threads s !! t = Some pc →
  (3 ≤ b)%nat →
  threads (join_steps t b s) !! t = Some Exited
  ∧ (is_alive pc = true → pc ≠ AtEntry → running (grabber (join_steps t b s)) = false).
Proof.
  intros Hev Hl Hb. apply (join_steps_exits b t s pc Hev Hl).
  destruct pc; cbn; lia.
Qed.

(** *** Patient joins *)


Lemma switch_no_orphan b s :
  no_orphan (on_grabber (set_enabled_field b) s) = no_orphan s.
Proof. reflexivity. Qed.




(** *** The driver under a live loop *)











(** *** Payload and metadata go together *)

Lemma read_meta st m st' :
  usb_camera.read st = (Ok (Some m), st') → frame_meta (meta m).
Proof.
  destruct st as [d w]. destruct (usb_camera._cap d) as [c|] eqn:Hc.
  - destruct (driver_facts.read_shot d w c Hc) as (d' & w' & -> & _).
    destruct (default _ _) as [[] [frame|]]; cbn; try discriminate.
    destruct (imencode frame _); [|discriminate].
    intros [= <- _]. cbn. by exists (rows frame), (cols frame).
  - rewrite (driver_facts.read_unopened (d, w) Hc). discriminate.
Qed.

Lemma paired_control s s' : control s' = control s → paired s → paired s'.
Proof.
  intros (_ & _ & _ & H4 & H5 & _ & H7)%grabber_facts.control_eq.
  unfold paired. by rewrite H4, H5, H7.
Qed.

Lemma paired_set_pc t pc s :
  paired s → (∀ m, pc = AtPublish m → frame_meta (meta m)) → paired (set_pc t pc s).
Proof.
  intros [Hl Hp] Hm. split; [exact Hl|].
  intros t' m. cbn. intros [(-> & H & _)|[_ H]]%list_lookup_insert_Some; eauto.
Qed.

Lemma loop_step_paired t s : paired s → paired (loop_step t s).
Proof.
  intros Hp. unfold loop_step.
  destruct (threads s !! t) as [[| | | |m|]|] eqn:E; try done.
  - destruct (driver (grabber s)); by apply paired_set_pc.
  - destruct (stop_evt (grabber s)); by apply paired_set_pc.
  - pose proof (paired_control _ _ (grabber_facts.on_driver_control usb_camera.read s) Hp)
      as Hp1.
    assert (∀ m, fst (on_driver usb_camera.read s) = Ok (Some m) → frame_meta (meta m))
      as Hm.
    { intros m. unfold on_driver. destruct (driver (grabber s)) as [d|]; [|done].
      destruct (usb_camera.read (d, env s)) as [r [d' w']] eqn:Hr. cbn.
      intros ->. by eapply read_meta. }
    destruct (on_driver usb_camera.read s) as [[[m|]|e] s1]; cbn in Hp1, Hm;
      apply paired_set_pc; try done.
    intros m' [= <-]. by apply Hm.
  - apply paired_set_pc; [|done].
    exact (paired_control _ _ (grabber_facts.in_world_control _ s) Hp).
  - apply paired_set_pc; [|done]. destruct Hp as [_ Hp].
    split; [exact (Hp t m E)|exact Hp].
Qed.

Lemma start_paired cfg s : paired s → paired (snd (start cfg s)).
Proof.
  intros [Hl Hp].
  destruct (grabber_facts.start_frame cfg s) as (_ & _ & H3 & H4 & Ht).
  unfold paired. rewrite H3, H4. split; [exact Hl|].
  destruct Ht as [[-> _]|(_ & _ & -> & _)]; [exact Hp|].
  intros t m [H|[_ H]]%lookup_app_Some; [by eapply Hp|].
  by destruct (t - length (threads s))%nat as [|[|]].
Qed.

Lemma stop_paired b s : paired s → paired (snd (stop b s)).
Proof.
  intros Hp.
  destruct (grabber_facts.stop_frame b s) as (_ & Ht & _ & _ & _ & _ & _ & H8 & H9).
  unfold paired. rewrite H8, H9, Ht. split; [done|].
  assert (paired (joined b s)) as [_ Hj]; [|exact Hj].
  unfold joined. destruct (thread (grabber s)); [|exact Hp].
  apply grabber_facts.join_steps_ind; [apply loop_step_paired|done|exact Hp].
Qed.

Lemma perform_paired cfg a s : paired s → paired (perform cfg a s).
Proof.
  apply grabber_facts.perform_ind; [apply loop_step_paired|apply start_paired|apply stop_paired|done|].
  intros q s0. apply paired_control, grabber_facts.in_world_control.
Qed.

Lemma boot_paired cfg w : paired (boot cfg w).
Proof.
  unfold boot.
  set (s0 := {| grabber := FrameGrabber__init__ cfg; threads := []; env := w |}).
  assert (paired s0) as H0 by (split; [reflexivity|by intros [|t] m]).
  destruct (enabled (grabber s0)); [|exact H0].
  assert (snd (try_except (start cfg) (λ _, eff_ret tt) s0) = snd (start cfg s0)) as ->.
  { unfold try_except, eff_ret. destruct (start cfg s0) as [[] ?]; reflexivity. }
  by apply start_paired.
Qed.

(** X11.  In every state the service reaches, whatever the actions and
    however its joins went, payload and metadata are published and cleared
    together: without a payload [get_meta()] is the empty map, and with
    one it is the [width]/[height]/[format] map that the driver built for
    some frame, [format] being [jpeg]; and what a loop is about to publish
    is such a pair as well. *)
Theorem payload_and_meta_agree (cfg : Config) (w : World) (acts : list Action) :
  let s := run cfg acts (boot cfg w) in
  match get_latest_jpeg s with
  | None => get_meta s = ∅
  | Some _ =>
      ∃ r c : N, get_meta s = {[ "width" := str c; "height" := str r; "format" := "jpeg" ]}
  end
  ∧ ∀ t m, threads s !! t = Some (AtPublish m) →
      ∃ r c : N, meta m = {[ "width" := str c; "height" := str r; "format" := "jpeg" ]}.
Proof.
  exact (grabber_facts.run_ind paired cfg (perform_paired cfg) acts _ (boot_paired cfg w)).
Qed.

(** *** Captures held by the process *)


















(** *** The handlers *)

(** X13.  A PUT /camera/enable repeated with the same flag changes
    nothing and answers [{"enabled": flag}], whatever the first one
    answered: after a first enable that failed with 500 the second one does
    not try to start the grabber again. *)
Theorem put_enable_twice (cfg : Config) (p : gmap string bool) (flag : bool)
    (b b' : nat) (s : Sys) :
  p !! "enabled" = Some flag →
  let s1 := snd (camera_enable cfg p b s) in
  camera_enable cfg p b' s1 = (EnabledJSON flag, s1)
  ∧ enabled (grabber s1) = flag.
Proof.
  intros Hp s1.
  assert (s1 = snd (set_enabled cfg flag b s)) as E.
  { unfold s1, camera_enable. rewrite Hp.
    destruct (set_enabled cfg flag b s) as [[] ?]; reflexivity. }
  assert (enabled (grabber s1) = flag) as He
    by (rewrite E; apply grabber_facts.set_enabled_result).
  split; [|exact He].
  unfold camera_enable. rewrite Hp, grabber_facts.set_enabled_spec, He.
  rewrite Bool.eqb_reflx. by rewrite He.
Qed.







(** X15.  GET /camera/stream, one pass of its generator and
    GET /camera/frame read the same state the same way: disabled, both
    answer 409 and a pass breaks; enabled without a non-empty payload, the
    frame is 404 while a pass sleeps 0.05 s once, leaves the grabber alone
    and goes round; with a payload, the frame is that payload and a pass
    yields its multipart part and changes nothing. *)
Theorem stream_follows_frame (s : Sys) :
  (camera_frame s = HTTPException 409 (Text "Camera disabled")
   ∧ camera_stream s = HTTPException 409 (Text "Camera disabled")
   ∧ gen_iter s = (Break, s))
  ∨ (camera_frame s = HTTPException 404 (Text "No frame available yet")
     ∧ camera_stream s = StreamingResponse stream_headers
     ∧ fst (gen_iter s) = Retry
     ∧ control (snd (gen_iter s)) = control s
     ∧ driver (grabber (snd (gen_iter s))) = driver (grabber s)
     ∧ driver_life.added (env s) (env (snd (gen_iter s))) = [ESleep (5 # 100)])
  ∨ (∃ body, body ≠ []
     ∧ get_latest_jpeg s = Some body
     ∧ camera_frame s = Response body "image/jpeg"
     ∧ camera_stream s = StreamingResponse stream_headers
     ∧ gen_iter s = (Yield (multipart_chunk "frame" "image/jpeg" body), s)).
Proof.
  unfold camera_frame, camera_stream, gen_iter.
  destruct (enabled (grabber s)); cbn [negb]; [|by left].
  right. destruct (get_latest_jpeg s) as [[|b p]|] eqn:E; cbn [truthy negb].
  - left. repeat (split; [done|]).
    unfold driver_life.added, in_world, zoom, sleep. cbn. by rewrite drop_app_length.
  - right. exists (b :: p). repeat (split; [done|]).
    apply (f_equal (λ c, (Yield c, s))).
    exact (service_facts.chunk_shape (str (len (b :: p))) (b :: p)).
  - left. repeat (split; [done|]).
    unfold driver_life.added, in_world, zoom, sleep. cbn. by rewrite drop_app_length.
Qed.


End grabber_more.

(* ===================================================================== *)
(** ** The further statements at work on the sample worlds *)
(* ===================================================================== *)

Module samples_more.
Import usb_camera driver_life api service service_more frames.


(** The camera of index 1 opened and closed again. *)
Lemma open_close_round_trip_witness :
  open (configured_driver, one_camera) = (Ok tt, (fst opened_camera, snd opened_camera))
  ∧ ∃ w2, close (fst opened_camera, snd opened_camera)
          = (Ok tt, (set_cap None (fst opened_camera), w2))
          ∧ held w2 = held one_camera.
Proof.
  assert (open (configured_driver, one_camera)
          = (Ok tt, (fst opened_camera, snd opened_camera))) as Ho
    by (vm_compute; reflexivity).
  split; [exact Ho|].
  destruct (driver_more.open_close_round_trip configured_driver (fst opened_camera)
              one_camera (snd opened_camera) Ho) as (w2 & H1 & _ & H3 & _).
  exists w2. split; [exact H1|exact H3].
Defined.

(** The camera of index 2 opened twice in a row: the driver holds one
    capture, and nothing stays held after the close. *)
Lemma second_open_replaces_witness :
  _cap second_driver = None
  ∧ open (second_driver, three_slots) = (Ok tt, (fst opened_once, snd opened_once))
  ∧ open (fst opened_once, snd opened_once)
    = (Ok tt, (fst opened_twice, snd opened_twice))
  ∧ length (held (snd opened_twice)) = S (length (held three_slots))
  ∧ ∃ w3, close (fst opened_twice, snd opened_twice)
          = (Ok tt, (set_cap None (fst opened_twice), w3))
          ∧ held w3 = held three_slots.
Proof.
  assert (open (second_driver, three_slots) = (Ok tt, (fst opened_once, snd opened_once)))
    as H1 by (vm_compute; reflexivity).
  assert (open (fst opened_once, snd opened_once)
          = (Ok tt, (fst opened_twice, snd opened_twice)))
    as H2 by (vm_compute; reflexivity).
  split; [reflexivity|]. split; [exact H1|]. split; [exact H2|].
  destruct (driver_more.second_open_replaces second_driver (fst opened_once)
              (fst opened_twice) three_slots (snd opened_once) (snd opened_twice)
              eq_refl H1 H2) as (_ & Hl & Hc).
  split; [exact Hl|exact Hc].
Defined.

(** A read on the opened camera of index 1. *)
Lemma read_measurement_witness :
  _cap (fst opened_camera) = Some 1
  ∧ match head (shots (device (snd opened_camera) 1)) with
    | Some (true, Some frame) =>
        match imencode frame (jpeg_quality (fst opened_camera)) with
        | Some buf =>
            ∃ m st', read (fst opened_camera, snd opened_camera) = (Ok (Some m), st')
                     ∧ data m = buf ∧ timestamp m = wallclock (snd opened_camera)
                     ∧ semantic_id m = None
                     ∧ dom (meta m) = ({[ "width"; "height"; "format" ]} : gset string)
                     ∧ meta m !! "format" = Some "jpeg"
                     ∧ (meta m !! "width" ≫= int_of_str) = Some (cols frame)
                     ∧ (meta m !! "height" ≫= int_of_str) = Some (rows frame)
        | None => ∃ st', read (fst opened_camera, snd opened_camera) = (Ok None, st')
        end
    | _ => ∃ st', read (fst opened_camera, snd opened_camera) = (Ok None, st')
    end.
Proof.
  split; [reflexivity|].
  apply (driver_more.read_measurement (fst opened_camera) (snd opened_camera) 1).
  reflexivity.
Defined.

(** Five pulls on the opened camera of index 1, which has two frames
    left. *)
Lemma iter_frames_yields_witness :
  _cap (fst opened_camera) = Some 1
  ∧ ∃ ms st',
      iter_frames 5 (fst opened_camera, snd opened_camera)
      = (ms,
         if (5 <=? length (leading (jpeg_quality (fst opened_camera))
                             (shots (device (snd opened_camera) 1))))%nat
         then base.Suspended else base.StopIteration, st')
      ∧ map payload ms
        = take 5 (leading (jpeg_quality (fst opened_camera))
                    (shots (device (snd opened_camera) 1)))
      ∧ held (snd st') = held (snd opened_camera).
Proof.
  split; [reflexivity|].
  destruct (driver_more.iter_frames_yields 5 (fst opened_camera) (snd opened_camera) 1
              eq_refl) as (ms & st' & H1 & _ & H3 & _ & H5).
  exists ms, st'. split; [exact H1|]. split; [exact H3|exact H5].
Defined.

(** The loop at the head of its [while], asked to stop and joined with
    room for three steps. *)
Lemma loop_exits_in_three_witness :
  stop_evt (grabber asked_to_stop) = true
  ∧ threads asked_to_stop !! 0%nat = Some AtWhile
  ∧ (3 ≤ 3)%nat
  ∧ threads (join_steps 0 3 asked_to_stop) !! 0%nat = Some Exited
  ∧ running (grabber (join_steps 0 3 asked_to_stop)) = false.
Proof.
  assert (stop_evt (grabber asked_to_stop) = true) as H1 by reflexivity.
  assert (threads asked_to_stop !! 0%nat = Some AtWhile) as H2 by (vm_compute; reflexivity).
  assert (3 ≤ 3)%nat as H3 by lia.
  split; [exact H1|]. split; [exact H2|]. split; [exact H3|].
  destruct (grabber_more.loop_exits_in_three asked_to_stop 0 3 AtWhile H1 H2 H3)
    as [Ha Hb].
  split; [exact Ha|]. apply Hb; [reflexivity|discriminate].
Defined.




(** PUT /camera/enable with [true] twice where no camera is attached: the
    first fails, the second answers that the camera is enabled. *)
Lemma put_enable_twice_witness :
  want true !! "enabled" = Some true
  ∧ let s1 := snd (camera_enable off_by_default (want true) 0
                     (boot off_by_default blank)) in
    camera_enable off_by_default (want true) 0 s1 = (EnabledJSON true, s1)
    ∧ enabled (grabber s1) = true.
Proof.
  assert (want true !! "enabled" = Some true) as H1 by (vm_compute; reflexivity).
  split; [exact H1|].
  exact (grabber_more.put_enable_twice off_by_default (want true) true 0 0
           (boot off_by_default blank) H1).
Defined.

End samples_more.
